(** * Backup-schedule extension of the compute command-line client

    A shallow embedding of
    [rax_backup_schedule_python_novaclient_ext/__init__.py]: the two
    vocabularies, [pretty_choice_list], the [BackupSchedule] resource, its
    [BackupScheduleManager], and the two shell commands
    [do_backup_schedule] and [do_backup_schedule_delete].

    Python dictionaries are finite maps with string keys, Python values are
    a small tagged union, and the effects of the commands (HTTP requests,
    printed tables, raised exceptions) are threaded through a state and
    error monad. *)

From Stdlib Require Import ZArith Ascii String List.
From stdpp Require Import base option gmap strings list fin_maps pretty.

Local Open Scope string_scope.
Local Open Scope Z_scope.

(** ** Python values *)

(** The values that flow through the module: [None], booleans, integers and
    strings.  [enabled] is a boolean (or [None] when no flag was given),
    [rotation] is the integer [0] by default and a string when it comes from
    the command line (the [--rotation] option declares no [type]). *)
Inductive value : Type :=
  | VNone
  | VBool (b : bool)
  | VInt (z : Z)
  | VStr (s : string).

#[global] Instance value_eq_dec : EqDecision value.
Proof. solve_decision. Defined.

(** A JSON-like object with scalar fields: the schedule document. *)
Abbreviation doc := (gmap string value).

(** A JSON-like object whose fields are documents: request and response
    bodies of the form [{"backupSchedule": {...}}]. *)
Abbreviation body := (gmap string (gmap string value)).

(** [str(v)], as used by the ["%s"] conversions of the module. *)
Definition py_str (v : value) : string :=
  match v with
  | VNone => "None"
  | VBool true => "True"
  | VBool false => "False"
  | VInt z => pretty z
  | VStr s => s
  end.

(** Truthiness of a string: only [''] is false. *)
Definition str_truthy (s : string) : bool :=
  match s with
  | EmptyString => false
  | String _ _ => true
  end.

(** Truthiness of an attribute that is [None] or a string. *)
Definition truthy (o : option string) : bool :=
  match o with
  | None => false
  | Some s => str_truthy s
  end.

(** [str.upper()] for ASCII text: the letters [a]..[z] are moved to
    [A]..[Z], every other byte is left as it is.  Python's [upper] also
    maps letters outside ASCII (and may change the length there); on such
    text this function and Python differ. *)
Definition upper_ascii (c : ascii) : ascii :=
  let n := nat_of_ascii c in
  if ((97 <=? n)%nat && (n <=? 122)%nat)%bool then ascii_of_nat (n - 32) else c.

Fixpoint upper (s : string) : string :=
  match s with
  | EmptyString => EmptyString
  | String c s' => String (upper_ascii c) (upper s')
  end.

(** [sep.join(l)]. *)
Fixpoint join (sep : string) (l : list string) : string :=
  match l with
  | [] => EmptyString
  | [x] => x
  | x :: l' => x +:+ sep +:+ join sep l'
  end.

(** ** Module constants *)

Definition DAY_CHOICES : list string :=
  ["DISABLED"; "SUNDAY"; "MONDAY"; "TUESDAY"; "WEDNESDAY";
   "THURSDAY"; "FRIDAY"; "SATURDAY"].

Definition HOUR_CHOICES : list string :=
  ["DISABLED"; "H_0000_0200"; "H_0200_0400"; "H_0400_0600";
   "H_0600_0800"; "H_0800_1000"; "H_1000_1200"; "H_1200_1400";
   "H_1400_1600"; "H_1600_1800"; "H_1800_2000"; "H_2000_2200";
   "H_2200_0000"].

(** [pretty_choice_list(l)]: [', '.join("'%s'" % i for i in l)]. *)
Definition pretty_choice_list (l : list string) : string :=
  join ", " (map (fun i => "'" +:+ i +:+ "'") l).

(** ** Servers, requests and the client *)

(** A server as the collaborator returns it; [id] is an integer or a string
    (a UUID) and is rendered with ["%s"]. *)
Record Server : Type := { server_id : value; server_name : string }.

(** Requests the module hands to the HTTP client. *)
Inductive request : Type :=
  | GET (url : string)
  | POST (url : string) (b : body)
  | DELETE (url : string).

(** Exceptions that end a command. *)
Inductive exn : Type :=
  | CommandError (ref : string)     (* find_resource: no unique server *)
  | HTTPError (r : request)         (* the client raises on a failed exchange *)
  | KeyError (key : string)         (* body[response_key] on a missing key *)
  | TypeError (msg : string)        (* unexpected keyword argument *)
  | SystemExit (status : Z) (errmsg : string).
                                    (* the shell's parser refuses the line *)

(** The collaborators reached through [cs]: server resolution
    ([utils.find_resource(cs.servers, ref)]) and the HTTP client
    ([api.client.get/post/delete]).  [None] and [false] stand for an
    exchange on which the client raises.  Resolution is a black box: the
    requests it makes on its own to the servers collection are not part of
    the log kept here. *)
Record Client : Type := {
  find_resource : string -> option Server;
  client_get : string -> option body;
  client_post : string -> body -> bool;
  client_delete : string -> bool
}.

(** What a command leaves behind: the requests issued on the schedule
    endpoint, oldest first, and the tables printed, each as its rows. *)
Record world : Type := {
  http_log : list request;
  stdout : list (list (string * value))
}.

Definition world0 : world := {| http_log := []; stdout := [] |}.

(** ** The command monad: state plus exceptions *)

Definition io (A : Type) : Type := world -> (exn + A) * world.

#[global] Instance io_ret : MRet io := fun A a w => (inr a, w).

#[global] Instance io_bind : MBind io := fun A B f m w =>
  match m w with
  | (inl e, w') => (inl e, w')
  | (inr a, w') => f a w'
  end.

Definition raise {A : Type} (e : exn) : io A := fun w => (inl e, w).

Definition add_request (r : request) (w : world) : world :=
  {| http_log := http_log w ++ [r]; stdout := stdout w |}.

Definition log_request (r : request) : io unit := fun w =>
  (inr tt, add_request r w).

(** [utils.print_dict(d)]: one table, one row per item of [d].  The rows
    are kept here as the items of the map; the order in which the table
    printer lays them out (sorted by key) is not recorded. *)
Definition print_dict (d : doc) : io unit := fun w =>
  (inr tt, {| http_log := http_log w; stdout := stdout w ++ [map_to_list d] |}).

(** The result and the final state of a command started from nothing. *)
Definition run {A : Type} (m : io A) : (exn + A) * world := m world0.

(** The three verbs of [api.client]: the request is issued, then the
    client either hands back the response or raises. *)
Definition http_get (cs : Client) (url : string) : io body :=
  _ ← log_request (GET url);
  match client_get cs url with
  | Some b => mret b
  | None => raise (HTTPError (GET url))
  end.

Definition http_post (cs : Client) (url : string) (b : body) : io unit :=
  _ ← log_request (POST url b);
  if client_post cs url b then mret tt else raise (HTTPError (POST url b)).

Definition http_delete (cs : Client) (url : string) : io unit :=
  _ ← log_request (DELETE url);
  if client_delete cs url then mret tt else raise (HTTPError (DELETE url)).

(** ['/servers/%s/backup_schedule' % server.id] *)
Definition schedule_url (server : Server) : string :=
  "/servers/" +:+ py_str (server_id server) +:+ "/backup_schedule".

(** ** [BackupSchedule] and [BackupScheduleManager] *)

(** The resource: the document it was built from ([_info]) and the server
    it belongs to.  The base class also copies every field of the document
    onto the instance; a resource is taken here with its own attributes
    ([manager], [_info]) and methods intact, which is the case whenever the
    document has no field of those names. *)
Record BackupSchedule : Type := { _info : doc; server : Server }.

(** [Manager._get(url, response_key)] of the base class: GET the url and
    build the resource from [body[response_key]]. *)
Definition Manager_get (cs : Client) (url response_key : string) : io doc :=
  b ← http_get cs url;
  match b !! response_key with
  | Some d => mret d
  | None => raise (KeyError response_key)
  end.

(** [Manager._delete(url)] of the base class. *)
Definition Manager_delete (cs : Client) (url : string) : io unit :=
  http_delete cs url.

Module BackupScheduleManager.

Definition get (cs : Client) (server : Server) : io BackupSchedule :=
  schedule ← Manager_get cs (schedule_url server) "backupSchedule";
  mret {| _info := schedule; server := server |}.

Definition create (cs : Client) (server : Server)
    (enabled weekly daily rotation : value) : io unit :=
  let backup_schedule : doc :=
    <["enabled" := enabled]> (<["weekly" := weekly]>
      (<["daily" := daily]> (<["rotation" := rotation]> ∅))) in
  http_post cs (schedule_url server) {["backupSchedule" := backup_schedule]}.

(** [update = create] in the class body. *)
Definition update := create.

Definition delete (cs : Client) (server : Server) : io unit :=
  Manager_delete cs (schedule_url server).

End BackupScheduleManager.

(** ** Methods of the [BackupSchedule] resource *)

(** Names and defaults of the keyword parameters of [BackupSchedule.update]:
    [enabled=True, weekly='disabled', daily='disabled', rotation=0]. *)
Definition update_defaults : doc :=
  <["enabled" := VBool true]> (<["weekly" := VStr "disabled"]>
    (<["daily" := VStr "disabled"]> (<["rotation" := VInt 0]> ∅))).

Definition update_params : gset string :=
  {["enabled"; "weekly"; "daily"; "rotation"]}.

(** The value a keyword parameter is bound to: the argument passed under
    that name, else the declared default. *)
Definition bind_param (kwargs : doc) (name : string) (dflt : value) : value :=
  default dflt (kwargs !! name).

Module BackupScheduleResource.

Definition get (cs : Client) (self : BackupSchedule) : io BackupSchedule :=
  BackupScheduleManager.get cs (server self).

Definition delete (cs : Client) (self : BackupSchedule) : io unit :=
  BackupScheduleManager.delete cs (server self).

(** [update(self, enabled=True, weekly='disabled', daily='disabled',
    rotation=0)], called with the keywords of an unpacked dictionary: a key
    outside the four parameters is a [TypeError]; each parameter takes its
    keyword or its default, and all four go to the manager's [create]. *)
Definition update (cs : Client) (self : BackupSchedule) (kwargs : doc) : io unit :=
  if decide (dom kwargs ⊆ update_params) then
    BackupScheduleManager.create cs (server self)
      (bind_param kwargs "enabled" (VBool true))
      (bind_param kwargs "weekly" (VStr "disabled"))
      (bind_param kwargs "daily" (VStr "disabled"))
      (bind_param kwargs "rotation" (VInt 0))
  else raise (TypeError "update() got an unexpected keyword argument").

End BackupScheduleResource.

(** ** The shell commands *)

(** The parsed arguments of [backup-schedule]: [server] is positional;
    [--enable]/[--disable] share [dest='enabled'] (default [None]);
    [--weekly], [--daily] and [--rotation] store the string given, and are
    [None] when absent. *)
Record Args : Type := {
  args_server : string;
  args_enabled : option bool;
  args_weekly : option string;
  args_daily : option string;
  args_rotation : option string
}.

(** Lines 150-158 of [do_backup_schedule]: the dictionary [backup] of
    overrides built from the flags.  [if args.daily:] passes for a string
    that is not empty and fails for [None] and for ['']. *)
Definition backup_of_args (args : Args) : doc :=
  let backup : doc := ∅ in
  let backup :=
    match args_daily args with
    | Some daily =>
        if str_truthy daily then <["daily" := VStr (upper daily)]> backup
        else backup
    | None => backup
    end in
  let backup :=
    match args_weekly args with
    | Some weekly =>
        if str_truthy weekly then <["weekly" := VStr (upper weekly)]> backup
        else backup
    | None => backup
    end in
  let backup :=
    match args_enabled args with
    | Some e => <["enabled" := VBool e]> backup
    | None => backup
    end in
  let backup :=
    match args_rotation args with
    | Some r => <["rotation" := VStr r]> backup
    | None => backup
    end in
  backup.

(** [find_resource] either resolves the reference or raises. *)
Definition find_server (cs : Client) (ref : string) : io Server :=
  match find_resource cs ref with
  | Some s => mret s
  | None => raise (CommandError ref)
  end.

Definition do_backup_schedule (cs : Client) (args : Args) : io unit :=
  server ← find_server cs (args_server args);
  backup_schedule ← BackupScheduleManager.get cs server;
  let backup := backup_of_args args in
  if decide (backup = ∅) then print_dict (_info backup_schedule)
  else BackupScheduleResource.update cs backup_schedule backup.

Definition do_backup_schedule_delete (cs : Client) (ref : string) : io unit :=
  server ← find_server cs ref;
  backup_schedule ← BackupScheduleManager.get cs server;
  BackupScheduleResource.delete cs backup_schedule.

(** ** The argument parser declared by the decorators *)

(** The optional arguments of [backup-schedule] as they appear on the
    command line, each valued option together with the text the parser
    paired with it.  Command lines on which that pairing itself fails (a
    valued option at the very end, or followed by another option) are not
    lists of flags and are left out. *)
Inductive flag : Type :=
  | Enable
  | Disable
  | Weekly (day : string)
  | Daily (window : string)
  | Rotation (n : string).

(** *** What the parser reports for a refused value *)

Definition single_quote : ascii := ascii_of_nat 39.
Definition double_quote : ascii := ascii_of_nat 34.
Definition backslash : ascii := ascii_of_nat 92.

Fixpoint has_char (c : ascii) (s : string) : bool :=
  match s with
  | EmptyString => false
  | String c' s' => (Ascii.eqb c c' || has_char c s')%bool
  end.

Definition hex_digit (n : nat) : ascii :=
  ascii_of_nat (if (n <? 10)%nat then 48 + n else 87 + n).

(** One character inside [repr(s)]: the enclosing quote and the backslash
    are escaped, tab, newline and return get their letter, the other
    control characters their two hexadecimal digits. *)
Definition repr_char (quote c : ascii) : string :=
  let n := nat_of_ascii c in
  if (Ascii.eqb c quote || Ascii.eqb c backslash)%bool
  then String backslash (String c EmptyString)
  else if (n =? 9)%nat then String backslash "t"
  else if (n =? 10)%nat then String backslash "n"
  else if (n =? 13)%nat then String backslash "r"
  else if ((n <? 32) || (n =? 127))%nat%bool
  then String backslash
         (String "x" (String (hex_digit (n / 16))
                        (String (hex_digit (n mod 16)) EmptyString)))
  else String c EmptyString.

Fixpoint repr_body (quote : ascii) (s : string) : string :=
  match s with
  | EmptyString => String quote EmptyString
  | String c s' => repr_char quote c +:+ repr_body quote s'
  end.

(** [repr(s)] of a string: between single quotes, or between double quotes
    when the text has a single quote and no double one.  Bytes outside
    ASCII are kept, as Python keeps printable characters. *)
Definition py_repr (s : string) : string :=
  let quote :=
    if (has_char single_quote s && negb (has_char double_quote s))%bool
    then double_quote else single_quote in
  String quote (repr_body quote s).

(** The text of the parser's own error for a value outside [choices]:
    ["argument %s: invalid choice: %r (choose from %s)"]. *)
Definition invalid_choice_message (option_string given : string)
    (choices : list string) : string :=
  "argument " +:+ option_string +:+ ": invalid choice: " +:+ py_repr given
    +:+ " (choose from " +:+ join ", " (map py_repr choices) +:+ ")".

(** [s.startswith(p)]. *)
Fixpoint starts_with (p s : string) : bool :=
  match p, s with
  | EmptyString, _ => true
  | String _ _, EmptyString => false
  | String a p', String b s' => (Ascii.eqb a b && starts_with p' s')%bool
  end.

(** [s.split(needle)[0]]: the text before the first place where [needle]
    occurs, all of [s] when it does not occur. *)
Fixpoint before (needle s : string) : string :=
  if starts_with needle s then EmptyString
  else match s with
       | EmptyString => EmptyString
       | String c s' => String c (before needle s')
       end.


(** The shell's [error(message)]: it keeps what stands before
    [" (choose from"] and leaves with status 2.  [errmsg] is that kept
    text; the usage line printed before it and the pointer to the help
    command printed after it are not recorded. *)
Definition parser_error (message : string) : exn :=
  SystemExit 2 (before " (choose from" message).



(** The check behind [choices=...]: the text must be a member of the list,
    compared as it is (case matters); a refused value goes to the parser's
    [error]. *)
Definition check_choice (option_string given : string) (choices : list string)
    : exn + string :=
  if decide (given ∈ choices) then inr given
  else inl (parser_error (invalid_choice_message option_string given choices)).

(** One action: [store_true] and [store_false] on [dest='enabled'], and
    [store] for the three valued options; [--rotation] declares neither
    [choices] nor [type]. *)
Definition take_flag (ns : Args) (f : flag) : exn + Args :=
  match f with
  | Enable =>
      inr {| args_server := args_server ns; args_enabled := Some true;
             args_weekly := args_weekly ns; args_daily := args_daily ns;
             args_rotation := args_rotation ns |}
  | Disable =>
      inr {| args_server := args_server ns; args_enabled := Some false;
             args_weekly := args_weekly ns; args_daily := args_daily ns;
             args_rotation := args_rotation ns |}
  | Weekly day =>
      match check_choice "--weekly" day DAY_CHOICES with
      | inl e => inl e
      | inr v =>
          inr {| args_server := args_server ns; args_enabled := args_enabled ns;
                 args_weekly := Some v; args_daily := args_daily ns;
                 args_rotation := args_rotation ns |}
      end
  | Daily window =>
      match check_choice "--daily" window HOUR_CHOICES with
      | inl e => inl e
      | inr v =>
          inr {| args_server := args_server ns; args_enabled := args_enabled ns;
                 args_weekly := args_weekly ns; args_daily := Some v;
                 args_rotation := args_rotation ns |}
      end
  | Rotation n =>
      inr {| args_server := args_server ns; args_enabled := args_enabled ns;
             args_weekly := args_weekly ns; args_daily := args_daily ns;
             args_rotation := Some n |}
  end.

Fixpoint take_flags (ns : Args) (flags : list flag) : exn + Args :=
  match flags with
  | [] => inr ns
  | f :: flags' =>
      match take_flag ns f with
      | inl e => inl e
      | inr ns' => take_flags ns' flags'
      end
  end.

(** The namespace starts from the defaults: [enabled] is [None] (the
    default of [--enable], the first action on that destination), the
    valued options are [None]. *)
Definition parse_args (server : string) (flags : list flag) : exn + Args :=
  take_flags {| args_server := server; args_enabled := None;
                args_weekly := None; args_daily := None;
                args_rotation := None |} flags.

(** The shell: parse, and only then call the command. *)
Definition backup_schedule_command (cs : Client) (server : string)
    (flags : list flag) : io unit :=
  match parse_args server flags with
  | inl e => raise e
  | inr args => do_backup_schedule cs args
  end.

Definition backup_schedule_delete_command (cs : Client) (server : string)
    : io unit :=
  do_backup_schedule_delete cs server.

(** The document [BackupSchedule.update] hands on for a dictionary of
    keywords: the four arguments it passes to [create], under the names
    [create] files them. *)
Definition update_document (kwargs : doc) : doc :=
  <["enabled" := bind_param kwargs "enabled" (VBool true)]>
    (<["weekly" := bind_param kwargs "weekly" (VStr "disabled")]>
      (<["daily" := bind_param kwargs "daily" (VStr "disabled")]>
        (<["rotation" := bind_param kwargs "rotation" (VInt 0)]> ∅))).

(** A field of a document holds a string of the given vocabulary. *)
Definition in_choices (choices : list string) (field : option value) : Prop :=
  ∃ s, field = Some (VStr s) ∧ s ∈ choices.

(** A flag whose text the parser refuses: a day or a window outside its
    list. *)
Definition refused (f : flag) : Prop :=
  match f with
  | Weekly day => day ∉ DAY_CHOICES
  | Daily window => window ∉ HOUR_CHOICES
  | _ => False
  end.

(** The namespace holds only days and windows of the two lists. *)
Definition vocab_ok (ns : Args) : Prop :=
  (∀ w, args_weekly ns = Some w → w ∈ DAY_CHOICES)
  ∧ (∀ d, args_daily ns = Some d → d ∈ HOUR_CHOICES).

(** ** A concrete client for the examples *)

Definition sample_server : Server :=
  {| server_id := VInt 1234; server_name := "web1" |}.

Definition sample_schedule : doc :=
  <["enabled" := VBool true]> (<["weekly" := VStr "SUNDAY"]>
    (<["daily" := VStr "DISABLED"]> (<["rotation" := VInt 2]> ∅))).

Definition sample_client : Client :=
  {| find_resource := fun ref =>
       if decide (ref = "web1") then Some sample_server else None;
     client_get := fun url =>
       if decide (url = "/servers/1234/backup_schedule")
       then Some {["backupSchedule" := sample_schedule]} else None;
     client_post := fun _ _ => true;
     client_delete := fun _ => true |}.

(** ** Reading a command line flag by flag *)

(** What a flag stores on each destination, if it targets it. *)
Definition pick_enabled (f : flag) : option bool :=
  match f with
  | Enable => Some true
  | Disable => Some false
  | _ => None
  end.

Definition pick_weekly (f : flag) : option string :=
  match f with Weekly day => Some day | _ => None end.

Definition pick_daily (f : flag) : option string :=
  match f with Daily window => Some window | _ => None end.

Definition pick_rotation (f : flag) : option string :=
  match f with Rotation n => Some n | _ => None end.

(** The value left on a destination that starts at [acc] once every flag
    of the list had its turn: each flag that targets it overwrites it. *)
Fixpoint last_of {A : Type} (pick : flag → option A) (flags : list flag)
    (acc : option A) : option A :=
  match flags with
  | [] => acc
  | f :: flags' =>
      last_of pick flags'
        (match pick f with Some a => Some a | None => acc end)
  end.

(** The sum of the lengths of the items of a list. *)
Definition total_length (l : list string) : nat :=
  foldr (fun i n => (String.length i + n)%nat) 0%nat l.

(** A string made of ASCII characters only. *)
Fixpoint is_ascii (s : string) : Prop :=
  match s with
  | EmptyString => True
  | String c s' => (nat_of_ascii c < 128)%nat ∧ is_ascii s'
  end.

(** A string without lower-case ASCII letters ([a] is 97, [z] is 122). *)
Fixpoint no_lower (s : string) : Prop :=
  match s with
  | EmptyString => True
  | String c s' =>
      ¬ (97 ≤ nat_of_ascii c ∧ nat_of_ascii c ≤ 122)%nat ∧ no_lower s'
  end.

(** * Properties *)

(** ** The constants and the helpers on concrete inputs *)

Example pretty_days :
  pretty_choice_list DAY_CHOICES =
  "'DISABLED', 'SUNDAY', 'MONDAY', 'TUESDAY', 'WEDNESDAY', 'THURSDAY', 'FRIDAY', 'SATURDAY'".
Proof. reflexivity. Qed.

Example upper_window : upper "h_0200_0400" = "H_0200_0400".
Proof. reflexivity. Qed.

Example str_of_id : py_str (VInt 1234) = "1234".
Proof. vm_compute. reflexivity. Qed.

Example day_count : length DAY_CHOICES = 8%nat ∧ length HOUR_CHOICES = 13%nat.
Proof. split; reflexivity. Qed.

Example show_run :
  run (backup_schedule_command sample_client "web1" []) =
  (inr tt, {| http_log := [GET "/servers/1234/backup_schedule"];
              stdout := [map_to_list sample_schedule] |}).
Proof. vm_compute. reflexivity. Qed.

Example delete_run :
  run (backup_schedule_delete_command sample_client "web1") =
  (inr tt, {| http_log := [GET "/servers/1234/backup_schedule";
                           DELETE "/servers/1234/backup_schedule"];
              stdout := [] |}).
Proof. vm_compute. reflexivity. Qed.

Example unknown_server_run :
  run (backup_schedule_command sample_client "db9" [Enable]) =
  (inl (CommandError "db9"), world0).
Proof. vm_compute. reflexivity. Qed.

(** ** The override dictionary *)

Lemma truthy_spec (o : option string) :
  truthy o = true ↔ ∃ s, o = Some s ∧ s ≠ EmptyString.
Proof.
  destruct o as [[|c s]|]; simpl; split; try discriminate.
  - intros (s & [= <-] & Hs). by destruct Hs.
  - intros _. by eexists.
  - done.
  - intros (s & [=] & _).
Qed.

Lemma backup_of_args_lookup (args : Args) :
  backup_of_args args !! "enabled" = VBool <$> args_enabled args
  ∧ backup_of_args args !! "rotation" = VStr <$> args_rotation args
  ∧ backup_of_args args !! "daily" =
      (if truthy (args_daily args)
       then (fun d => VStr (upper d)) <$> args_daily args else None)
  ∧ backup_of_args args !! "weekly" =
      (if truthy (args_weekly args)
       then (fun d => VStr (upper d)) <$> args_weekly args else None).
Proof.
  unfold backup_of_args.
  destruct args as [srv [e|] [[|c w]|] [[|c' d]|] [r|]]; simpl;
    by simplify_map_eq.
Qed.

Lemma backup_of_args_dom (args : Args) :
  dom (backup_of_args args) ⊆ update_params.
Proof.
  unfold backup_of_args, update_params.
  destruct args as [srv [e|] [[|c w]|] [[|c' d]|] [r|]]; simpl;
    rewrite ?dom_insert_L, dom_empty_L; apply elem_of_subseteq; intros f;
    rewrite ?elem_of_union, ?elem_of_singleton, ?elem_of_empty; tauto.
Qed.

(** ** Keyword binding *)

Lemma bind_param_union (kwargs : doc) (name : string) (dflt : value) :
  update_defaults !! name = Some dflt →
  (kwargs ∪ update_defaults) !! name = Some (bind_param kwargs name dflt).
Proof.
  intros Hd. rewrite lookup_union. unfold bind_param.
  destruct (kwargs !! name); simpl; rewrite Hd; by simplify_option_eq.
Qed.

Lemma update_document_union (kwargs : doc) :
  dom kwargs ⊆ update_params →
  update_document kwargs = kwargs ∪ update_defaults.
Proof.
  intros Hdom. apply map_eq. intros f. unfold update_document.
  destruct (decide (f = "enabled")) as [->|He];
    [by rewrite lookup_insert_eq, (bind_param_union _ _ (VBool true))|].
  destruct (decide (f = "weekly")) as [->|Hw];
    [by rewrite lookup_insert_ne, lookup_insert_eq,
        (bind_param_union _ _ (VStr "disabled"))|].
  destruct (decide (f = "daily")) as [->|Hd];
    [by rewrite !lookup_insert_ne, lookup_insert_eq,
        (bind_param_union _ _ (VStr "disabled")) by done|].
  destruct (decide (f = "rotation")) as [->|Hr];
    [by rewrite !lookup_insert_ne, lookup_insert_eq,
        (bind_param_union _ _ (VInt 0)) by done|].
  assert (kwargs !! f = None) as Hnone.
  { apply not_elem_of_dom. intros Hin. apply Hdom in Hin.
    unfold update_params in Hin.
    rewrite !elem_of_union, !elem_of_singleton in Hin. tauto. }
  rewrite lookup_union, Hnone. unfold update_defaults.
  rewrite !lookup_insert_ne, lookup_empty by done. done.
Qed.

Lemma update_document_dom (kwargs : doc) :
  dom (update_document kwargs) = update_params.
Proof.
  unfold update_document, update_params.
  rewrite !dom_insert_L, dom_empty_L. apply set_eq. intros f.
  rewrite !elem_of_union, !elem_of_singleton, elem_of_empty. tauto.
Qed.

(** ** What each operation does to the world *)

Lemma manager_get_run (cs : Client) (srv : Server) (w : world) :
  BackupScheduleManager.get cs srv w =
  match client_get cs (schedule_url srv) with
  | None =>
      (inl (HTTPError (GET (schedule_url srv))),
       add_request (GET (schedule_url srv)) w)
  | Some b =>
      match b !! "backupSchedule" with
      | None =>
          (inl (KeyError "backupSchedule"),
           add_request (GET (schedule_url srv)) w)
      | Some d =>
          (inr {| _info := d; server := srv |},
           add_request (GET (schedule_url srv)) w)
      end
  end.
Proof.
  unfold BackupScheduleManager.get, Manager_get, http_get, log_request,
    mbind, io_bind, mret, io_ret, raise.
  destruct (client_get cs (schedule_url srv)) as [b|]; [|done].
  by destruct (b !! "backupSchedule").
Qed.

Lemma manager_create_run (cs : Client) (srv : Server)
    (enabled weekly daily rotation : value) (w : world) :
  let sent : doc :=
    <["enabled" := enabled]> (<["weekly" := weekly]>
      (<["daily" := daily]> (<["rotation" := rotation]> ∅))) in
  let r := POST (schedule_url srv) {["backupSchedule" := sent]} in
  BackupScheduleManager.create cs srv enabled weekly daily rotation w =
  (if client_post cs (schedule_url srv) {["backupSchedule" := sent]}
   then inr tt else inl (HTTPError r), add_request r w).
Proof.
  simpl. unfold BackupScheduleManager.create, http_post, log_request,
    mbind, io_bind, mret, io_ret, raise.
  by destruct (client_post cs _ _).
Qed.

Lemma manager_delete_run (cs : Client) (srv : Server) (w : world) :
  BackupScheduleManager.delete cs srv w =
  (if client_delete cs (schedule_url srv)
   then inr tt else inl (HTTPError (DELETE (schedule_url srv))),
   add_request (DELETE (schedule_url srv)) w).
Proof.
  unfold BackupScheduleManager.delete, Manager_delete, http_delete,
    log_request, mbind, io_bind, mret, io_ret, raise.
  by destruct (client_delete cs _).
Qed.

Lemma resource_update_run (cs : Client) (self : BackupSchedule)
    (kwargs : doc) (w : world) :
  dom kwargs ⊆ update_params →
  let r := POST (schedule_url (server self))
             {["backupSchedule" := update_document kwargs]} in
  BackupScheduleResource.update cs self kwargs w =
  (if client_post cs (schedule_url (server self))
        {["backupSchedule" := update_document kwargs]}
   then inr tt else inl (HTTPError r), add_request r w).
Proof.
  intros Hdom. simpl. unfold BackupScheduleResource.update.
  rewrite decide_True by done. apply manager_create_run.
Qed.

(** The whole of [do_backup_schedule], case by case. *)
Lemma do_backup_schedule_run (cs : Client) (args : Args) :
  run (do_backup_schedule cs args) =
  match find_resource cs (args_server args) with
  | None => (inl (CommandError (args_server args)), world0)
  | Some srv =>
      let u := schedule_url srv in
      let seen := add_request (GET u) world0 in
      match client_get cs u with
      | None => (inl (HTTPError (GET u)), seen)
      | Some b =>
          match b !! "backupSchedule" with
          | None => (inl (KeyError "backupSchedule"), seen)
          | Some d =>
              if decide (backup_of_args args = ∅)
              then (inr tt, {| http_log := [GET u]; stdout := [map_to_list d] |})
              else
                let p := {["backupSchedule" :=
                             update_document (backup_of_args args)]} in
                (if client_post cs u p
                 then inr tt else inl (HTTPError (POST u p)),
                 add_request (POST u p) seen)
          end
      end
  end.
Proof.
  unfold run, do_backup_schedule, find_server.
  unfold mbind at 1. unfold io_bind.
  destruct (find_resource cs (args_server args)) as [srv|]; [|done].
  unfold mret at 1. unfold io_ret.
  unfold mbind, io_bind. rewrite manager_get_run.
  destruct (client_get cs (schedule_url srv)) as [b|]; [|done].
  destruct (b !! "backupSchedule") as [d|]; [|done].
  simpl. destruct (decide (backup_of_args args = ∅)); [done|].
  by rewrite resource_update_run by apply backup_of_args_dom.
Qed.

Lemma do_backup_schedule_delete_run (cs : Client) (ref : string) :
  run (do_backup_schedule_delete cs ref) =
  match find_resource cs ref with
  | None => (inl (CommandError ref), world0)
  | Some srv =>
      let u := schedule_url srv in
      let seen := add_request (GET u) world0 in
      match client_get cs u with
      | None => (inl (HTTPError (GET u)), seen)
      | Some b =>
          match b !! "backupSchedule" with
          | None => (inl (KeyError "backupSchedule"), seen)
          | Some d =>
              (if client_delete cs u
               then inr tt else inl (HTTPError (DELETE u)),
               add_request (DELETE u) seen)
          end
      end
  end.
Proof.
  unfold run, do_backup_schedule_delete, find_server.
  unfold mbind at 1. unfold io_bind.
  destruct (find_resource cs ref) as [srv|]; [|done].
  unfold mret at 1. unfold io_ret.
  unfold mbind, io_bind. rewrite manager_get_run.
  destruct (client_get cs (schedule_url srv)) as [b|]; [|done].
  destruct (b !! "backupSchedule") as [d|]; [|done].
  unfold BackupScheduleResource.delete. simpl. apply manager_delete_run.
Qed.

(** ** The parser *)

Lemma check_choice_inr (opt given : string) (choices : list string) (v : string) :
  check_choice opt given choices = inr v → v = given ∧ given ∈ choices.
Proof.
  unfold check_choice. case_decide; [|discriminate]. by intros [= <-].
Qed.


Lemma take_flag_accepted (ns ns' : Args) (f : flag) :
  take_flag ns f = inr ns' → ¬ refused f.
Proof.
  destruct f as [| |w|d|r]; simpl; try tauto.
  - destruct (check_choice _ w _) eqn:Hc; [discriminate|].
    apply check_choice_inr in Hc as [_ Hin]. tauto.
  - destruct (check_choice _ d _) eqn:Hc; [discriminate|].
    apply check_choice_inr in Hc as [_ Hin]. tauto.
Qed.

Lemma take_flag_succeeds (ns : Args) (f : flag) :
  ¬ refused f → ∃ ns', take_flag ns f = inr ns'.
Proof.
  destruct f as [| |w|d|r]; simpl; intros Hok; try by eexists.
  - unfold check_choice. rewrite decide_True; [by eexists|].
    by destruct (decide (w ∈ DAY_CHOICES)).
  - unfold check_choice. rewrite decide_True; [by eexists|].
    by destruct (decide (d ∈ HOUR_CHOICES)).
Qed.

Lemma take_flags_succeeds (flags : list flag) (ns : Args) :
  (∀ f, f ∈ flags → ¬ refused f) → ∃ args, take_flags ns flags = inr args.
Proof.
  revert ns. induction flags as [|f flags IH]; intros ns Hok; simpl.
  - by eexists.
  - destruct (take_flag_succeeds ns f) as [ns' ->].
    { apply Hok, list_elem_of_here. }
    apply IH. intros g Hg. by apply Hok, list_elem_of_further.
Qed.

Lemma take_flag_vocab (ns ns' : Args) (f : flag) :
  vocab_ok ns → take_flag ns f = inr ns' → vocab_ok ns'.
Proof.
  intros [Hw Hd]. destruct f as [| |w|d|r]; simpl.
  1,2,5: intros [= <-]; by split.
  - destruct (check_choice _ w _) eqn:Hc; [discriminate|].
    apply check_choice_inr in Hc as [-> Hin]. intros [= <-].
    split; simpl; [by intros ? [= <-] | done].
  - destruct (check_choice _ d _) eqn:Hc; [discriminate|].
    apply check_choice_inr in Hc as [-> Hin]. intros [= <-].
    split; simpl; [done | by intros ? [= <-]].
Qed.

Lemma take_flags_vocab (flags : list flag) (ns args : Args) :
  vocab_ok ns → take_flags ns flags = inr args → vocab_ok args.
Proof.
  revert ns. induction flags as [|f flags IH]; intros ns Hok; simpl.
  - by intros [= <-].
  - destruct (take_flag ns f) as [e|ns'] eqn:Hf; [discriminate|].
    apply IH. by eapply take_flag_vocab.
Qed.

Lemma take_flags_accepted (flags : list flag) (ns args : Args) (f : flag) :
  take_flags ns flags = inr args → f ∈ flags → ¬ refused f.
Proof.
  revert ns. induction flags as [|g flags IH]; intros ns; simpl.
  - intros _ Hin. by apply elem_of_nil in Hin.
  - destruct (take_flag ns g) as [e|ns'] eqn:Hg; [discriminate|].
    intros Hrest [->|Hin]%elem_of_cons.
    + by eapply take_flag_accepted.
    + by eapply IH.
Qed.

(** Once set, a destination stays set; a flag sets its own. *)
Lemma take_flag_keeps (ns ns' : Args) (f : flag) :
  take_flag ns f = inr ns' →
  (is_Some (args_weekly ns) ∨ (∃ w, f = Weekly w) → is_Some (args_weekly ns'))
  ∧ (is_Some (args_daily ns) ∨ (∃ d, f = Daily d) → is_Some (args_daily ns')).
Proof.
  destruct f as [| |w|d|r]; simpl.
  1,2,5: intros [= <-]; simpl; split; intros [?|[? [=]]]; done.
  - destruct (check_choice _ w _); [discriminate|]. intros [= <-]; simpl.
    split; [by eexists | intros [?|[? [=]]]; done].
  - destruct (check_choice _ d _); [discriminate|]. intros [= <-]; simpl.
    split; [intros [?|[? [=]]]; done | by eexists].
Qed.

Lemma take_flags_keeps (flags : list flag) (ns args : Args) :
  take_flags ns flags = inr args →
  (is_Some (args_weekly ns) ∨ (∃ w, Weekly w ∈ flags) → is_Some (args_weekly args))
  ∧ (is_Some (args_daily ns) ∨ (∃ d, Daily d ∈ flags) → is_Some (args_daily args)).
Proof.
  revert ns. induction flags as [|f flags IH]; intros ns; simpl.
  - intros [= <-]. split; intros [?|[? Hin]]; try done;
      by apply elem_of_nil in Hin.
  - destruct (take_flag ns f) as [e|ns'] eqn:Hf; [discriminate|].
    intros Hrest. destruct (IH _ Hrest) as [IHw IHd].
    destruct (take_flag_keeps _ _ _ Hf) as [Hw Hd].
    split.
    + intros [Hs|[w [<-|Hin]%elem_of_cons]].
      * apply IHw. left. apply Hw. by left.
      * apply IHw. left. apply Hw. right. by eexists.
      * apply IHw. right. by eexists.
    + intros [Hs|[d [<-|Hin]%elem_of_cons]].
      * apply IHd. left. apply Hd. by left.
      * apply IHd. left. apply Hd. right. by eexists.
      * apply IHd. right. by eexists.
Qed.


(** ** The text the shell reports *)

Lemma append_cons (x : ascii) (a b : string) :
  String x a +:+ b = String x (a +:+ b).
Proof. reflexivity. Qed.

Lemma append_assoc (a b c : string) : (a +:+ b) +:+ c = a +:+ (b +:+ c).
Proof.
  induction a as [|x a IH]; [reflexivity|].
  by rewrite !append_cons, IH.
Qed.

Lemma length_append (a b : string) :
  String.length (a +:+ b) = (String.length a + String.length b)%nat.
Proof.
  induction a as [|x a IH]; [reflexivity|].
  rewrite append_cons. simpl. by rewrite IH.
Qed.






Lemma upper_day (w : string) : w ∈ DAY_CHOICES → upper w = w ∧ truthy (Some w) = true.
Proof.
  unfold DAY_CHOICES. intros Hin.
  repeat (apply elem_of_cons in Hin as [->|Hin]; [by split|]).
  by apply elem_of_nil in Hin.
Qed.

Lemma upper_hour (d : string) : d ∈ HOUR_CHOICES → upper d = d ∧ truthy (Some d) = true.
Proof.
  unfold HOUR_CHOICES. intros Hin.
  repeat (apply elem_of_cons in Hin as [->|Hin]; [by split|]).
  by apply elem_of_nil in Hin.
Qed.

Lemma parse_args_vocab (ref : string) (flags : list flag) (args : Args) :
  parse_args ref flags = inr args → vocab_ok args.
Proof. apply take_flags_vocab. by split. Qed.

(** ** Which flags become overrides *)

(** C10: [enabled] and [rotation] are entered in [backup] exactly when
    their parsed value is not [None], so [False] from [--disable] and the
    text ["0"] given to [--rotation] are both entered; [daily] and [weekly]
    are entered, in upper case, exactly when their value is truthy, so
    [None] and the empty string leave them out. *)
Theorem override_presence (args : Args) (ref : string) :
  backup_of_args args !! "enabled" = VBool <$> args_enabled args
  ∧ backup_of_args args !! "rotation" = VStr <$> args_rotation args
  ∧ backup_of_args args !! "daily" =
      (if truthy (args_daily args)
       then (fun d => VStr (upper d)) <$> args_daily args else None)
  ∧ backup_of_args args !! "weekly" =
      (if truthy (args_weekly args)
       then (fun d => VStr (upper d)) <$> args_weekly args else None)
  ∧ ("enabled" ∈ dom (backup_of_args args) ↔ args_enabled args ≠ None)
  ∧ ("rotation" ∈ dom (backup_of_args args) ↔ args_rotation args ≠ None)
  ∧ ("daily" ∈ dom (backup_of_args args) ↔ truthy (args_daily args) = true)
  ∧ ("weekly" ∈ dom (backup_of_args args) ↔ truthy (args_weekly args) = true)
  ∧ truthy None = false ∧ truthy (Some EmptyString) = false
  ∧ (∃ parsed, parse_args ref [Disable] = inr parsed
               ∧ args_enabled parsed = Some false
               ∧ backup_of_args parsed = {["enabled" := VBool false]})
  ∧ (∃ parsed, parse_args ref [Rotation "0"] = inr parsed
               ∧ args_rotation parsed = Some "0"
               ∧ backup_of_args parsed = {["rotation" := VStr "0"]}).
Proof.
  destruct (backup_of_args_lookup args) as (He & Hr & Hd & Hw).
  split; [exact He|]. split; [exact Hr|]. split; [exact Hd|]. split; [exact Hw|].
  rewrite !elem_of_dom, He, Hr, Hd, Hw.
  destruct (args_enabled args), (args_rotation args),
    (args_daily args) as [[|??]|], (args_weekly args) as [[|??]|]; simpl;
    repeat split; intros; try done; try (by eexists);
    try (eexists; split; [reflexivity|]; split; reflexivity);
    match goal with H : is_Some None |- _ => by destruct H end.
Qed.

(** ** The manager *)

(** C6: the manager's [update] is its [create].  They are one function;
    called on the same server with the same four arguments from the same
    state they give the same result, and what each adds to the log is one
    POST to the schedule endpoint with the body built from the arguments. *)
Theorem manager_update_is_create (cs : Client) (srv : Server)
    (enabled weekly daily rotation : value) (w : world) :
  let sent : doc :=
    <["enabled" := enabled]> (<["weekly" := weekly]>
      (<["daily" := daily]> (<["rotation" := rotation]> ∅))) in
  let posted := POST (schedule_url srv) {["backupSchedule" := sent]} in
  BackupScheduleManager.update = BackupScheduleManager.create
  ∧ BackupScheduleManager.update cs srv enabled weekly daily rotation w =
    BackupScheduleManager.create cs srv enabled weekly daily rotation w
  ∧ http_log (snd (BackupScheduleManager.create cs srv enabled weekly daily rotation w))
    = (http_log w ++ [posted])%list
  ∧ http_log (snd (BackupScheduleManager.update cs srv enabled weekly daily rotation w))
    = (http_log w ++ [posted])%list.
Proof.
  simpl. unfold BackupScheduleManager.update.
  rewrite manager_create_run. simpl. by repeat split.
Qed.

(** *** The identifier in the URL *)

Lemma append_inj_r (a b s : string) : a +:+ s = b +:+ s → a = b.
Proof.
  revert b. induction a as [|x a IH]; intros [|y b] Heq; [done|..].
  - change (EmptyString +:+ s) with s in Heq.
    apply (f_equal String.length) in Heq.
    rewrite append_cons in Heq. simpl in Heq. rewrite length_append in Heq. lia.
  - change (EmptyString +:+ s) with s in Heq.
    apply (f_equal String.length) in Heq.
    rewrite append_cons in Heq. simpl in Heq. rewrite length_append in Heq. lia.
  - rewrite !append_cons in Heq. injection Heq as -> Heq. f_equal. by apply IH.
Qed.

Lemma pretty_N_go_acc (x : N) (s : string) :
  pretty_N_go x s = pretty_N_go x EmptyString +:+ s.
Proof.
  revert s. induction (N.lt_wf_0 x) as [x _ IH]; intros s.
  destruct (decide (x = 0)%N) as [->|Hx]; [by rewrite !pretty_N_go_0|].
  assert (x `div` 10 < x)%N as Hlt by (apply N.div_lt; lia).
  rewrite (pretty_N_go_step x s), (pretty_N_go_step x EmptyString) by lia.
  rewrite (IH _ Hlt (String (pretty_N_char (x `mod` 10)) s)).
  rewrite (IH _ Hlt (String (pretty_N_char (x `mod` 10)) EmptyString)).
  by rewrite append_assoc.
Qed.

Lemma pretty_N_char_digit (x : N) :
  (x < 10)%N → pretty_N_char x = ascii_of_nat (48 + N.to_nat x).
Proof.
  intros Hx.
  assert (x = 0 ∨ x = 1 ∨ x = 2 ∨ x = 3 ∨ x = 4 ∨ x = 5 ∨ x = 6 ∨ x = 7
          ∨ x = 8 ∨ x = 9)%N as Hcases by lia.
  repeat (destruct Hcases as [->|Hcases]; [reflexivity|]). by subst.
Qed.

Lemma pretty_N_small (x : N) :
  (x < 10)%N → pretty x = String (pretty_N_char x) EmptyString.
Proof.
  intros Hx. unfold pretty, pretty_N.
  destruct (decide (x = 0)%N) as [->|Hne]; [reflexivity|].
  rewrite pretty_N_go_step by lia.
  rewrite (N.div_small x 10) by done. rewrite pretty_N_go_0.
  by rewrite (N.mod_small x 10) by done.
Qed.

Lemma pretty_N_large (x : N) :
  (10 ≤ x)%N →
  pretty x = pretty (x `div` 10)%N
               +:+ String (pretty_N_char (x `mod` 10)) EmptyString.
Proof.
  intros Hx. unfold pretty, pretty_N.
  assert (0 < x `div` 10)%N by (apply N.div_str_pos; lia).
  rewrite !decide_False by lia.
  rewrite pretty_N_go_step by lia. apply pretty_N_go_acc.
Qed.

Lemma pretty_Z_of_N (n : N) : pretty (Z.of_N n) = pretty n.
Proof. by destruct n. Qed.

(** The decimal text of an integer identifier, digit by digit. *)
Lemma py_str_int_digits (z : Z) :
  (0 ≤ z < 10 →
   py_str (VInt z) = String (ascii_of_nat (48 + Z.to_nat z)) EmptyString)
  ∧ (10 ≤ z →
     py_str (VInt z) = py_str (VInt (z `div` 10)) +:+ py_str (VInt (z `mod` 10)))
  ∧ (z < 0 → py_str (VInt z) = "-" +:+ py_str (VInt (- z))).
Proof.
  simpl. split; [|split].
  - intros Hz. rewrite <- (Z2N.id z) at 1 by lia.
    rewrite pretty_Z_of_N, pretty_N_small by lia.
    rewrite pretty_N_char_digit by lia. by rewrite Z_N_nat.
  - intros Hz.
    assert (z = Z.of_N (Z.to_N z)) as Hn by (symmetry; apply Z2N.id; lia).
    assert (10 ≤ Z.to_N z)%N as Hlarge by lia.
    revert Hn Hlarge. generalize (Z.to_N z). intros n -> Hlarge.
    change (pretty (Z.of_N n) =
            pretty (Z.of_N n `div` Z.of_N 10)
              +:+ pretty (Z.of_N n `mod` Z.of_N 10)).
    rewrite <- N2Z.inj_div, <- N2Z.inj_mod, !pretty_Z_of_N.
    rewrite (pretty_N_small (n `mod` 10)%N) by (apply N.mod_lt; lia).
    by apply pretty_N_large.
  - intros Hz. destruct z as [|p|p]; [lia..|]. reflexivity.
Qed.

(** Two servers get the same schedule URL only if their identifiers are
    written the same. *)
Lemma schedule_url_inj (srv srv' : Server) :
  schedule_url srv = schedule_url srv' →
  py_str (server_id srv) = py_str (server_id srv').
Proof.
  unfold schedule_url. intros Heq.
  apply (inj (String.app "/servers/")) in Heq.
  by apply append_inj_r in Heq.
Qed.

(** C7: for a server with identifier [id], the read issues
    [GET /servers/{id}/backup_schedule] and returns the document found under
    the key ["backupSchedule"] of the response; the write issues
    [POST /servers/{id}/backup_schedule] with the body
    [{"backupSchedule": {enabled, weekly, daily, rotation}}], whose inner
    document has exactly those four fields, each holding its argument.
    In the URL a string identifier stands as it is and an integer one in
    decimal (one digit below ten, the digits of the quotient followed by
    the last digit from ten on, a minus sign before the digits of a
    negative one); servers whose identifiers are written differently get
    different URLs. *)
Theorem read_and_write_requests (cs : Client) (srv : Server) :
  (∀ s, server_id srv = VStr s →
        schedule_url srv = "/servers/" +:+ s +:+ "/backup_schedule")
  ∧ (∀ z, server_id srv = VInt z →
          schedule_url srv =
            "/servers/" +:+ py_str (VInt z) +:+ "/backup_schedule"
          ∧ (0 ≤ z < 10 →
             py_str (VInt z) =
               String (ascii_of_nat (48 + Z.to_nat z)) EmptyString)
          ∧ (10 ≤ z →
             py_str (VInt z) =
               py_str (VInt (z `div` 10)) +:+ py_str (VInt (z `mod` 10)))
          ∧ (z < 0 → py_str (VInt z) = "-" +:+ py_str (VInt (- z))))
  ∧ (∀ srv', schedule_url srv = schedule_url srv' →
             py_str (server_id srv) = py_str (server_id srv'))
  ∧ (∀ (b : body) (d : doc),
       client_get cs (schedule_url srv) = Some b →
       b !! "backupSchedule" = Some d →
       run (BackupScheduleManager.get cs srv) =
       (inr {| _info := d; server := srv |},
        {| http_log := [GET (schedule_url srv)]; stdout := [] |}))
  ∧ (∀ enabled weekly daily rotation : value,
       ∃ sent : doc,
         http_log (snd (run (BackupScheduleManager.create cs srv
                               enabled weekly daily rotation)))
         = [POST (schedule_url srv) {["backupSchedule" := sent]}]
         ∧ dom sent = {["enabled"; "weekly"; "daily"; "rotation"]}
         ∧ sent !! "enabled" = Some enabled
         ∧ sent !! "weekly" = Some weekly
         ∧ sent !! "daily" = Some daily
         ∧ sent !! "rotation" = Some rotation).
Proof.
  split; [|split; [|split; [|split]]].
  - intros s Hid. unfold schedule_url. by rewrite Hid.
  - intros z Hid. split; [unfold schedule_url; by rewrite Hid|].
    apply py_str_int_digits.
  - apply schedule_url_inj.
  - intros b d Hget Hkey. unfold run. rewrite manager_get_run, Hget, Hkey. done.
  - intros enabled weekly daily rotation. eexists. unfold run.
    rewrite manager_create_run. simpl. split; [done|].
    split; [|by simplify_map_eq].
    rewrite !dom_insert_L, dom_empty_L. apply set_eq. intros f.
    rewrite !elem_of_union, !elem_of_singleton, elem_of_empty. tauto.
Qed.

Lemma read_and_write_requests_witness :
  schedule_url {| server_id := VStr "a3f0-77"; server_name := "db2" |} =
    "/servers/a3f0-77/backup_schedule"
  ∧ schedule_url sample_server = "/servers/1234/backup_schedule"
  ∧ py_str (VInt 1234) = py_str (VInt 123) +:+ py_str (VInt 4)
  ∧ run (BackupScheduleManager.get sample_client sample_server) =
    (inr {| _info := sample_schedule; server := sample_server |},
     {| http_log := [GET "/servers/1234/backup_schedule"]; stdout := [] |}).
Proof.
  destruct (read_and_write_requests sample_client
              {| server_id := VStr "a3f0-77"; server_name := "db2" |})
    as (Hstr & _).
  destruct (read_and_write_requests sample_client sample_server)
    as (_ & Hint & _ & Hread & _).
  destruct (Hint 1234 eq_refl) as (Hurl & _ & Hlarge & _).
  split; [apply (Hstr "a3f0-77"); reflexivity|].
  split; [rewrite Hurl; vm_compute; reflexivity|].
  split; [apply Hlarge; lia|].
  apply (Hread {["backupSchedule" := sample_schedule]} sample_schedule);
    vm_compute; reflexivity.
Defined.

(** ** Updating a fetched schedule *)

(** C1, as the code has it: [BackupSchedule.update], called with a
    dictionary of overrides over its four parameters, submits one document
    that holds the override on every field the dictionary has and the
    declared default ([True], ['disabled'], ['disabled'], [0]) on every
    field it lacks; the document last fetched plays no part. *)
Theorem update_sends_overrides_over_defaults (cs : Client)
    (self : BackupSchedule) (overrides : doc) :
  dom overrides ⊆ update_params →
  ∃ sent : doc,
    http_log (snd (run (BackupScheduleResource.update cs self overrides)))
    = [POST (schedule_url (server self)) {["backupSchedule" := sent]}]
    ∧ sent = overrides ∪ update_defaults
    ∧ (∀ f, f ∈ dom overrides → sent !! f = overrides !! f)
    ∧ (∀ f, f ∉ dom overrides → sent !! f = update_defaults !! f).
Proof.
  intros Hdom. exists (update_document overrides). unfold run.
  rewrite resource_update_run by done. simpl. split; [done|].
  rewrite update_document_union by done. split; [done|]. split.
  - intros f [v Hv]%elem_of_dom. by rewrite lookup_union, Hv, union_Some_l.
  - intros f Hf%not_elem_of_dom. by rewrite lookup_union, Hf, (left_id None _).
Qed.

Lemma update_sends_overrides_over_defaults_witness :
  ∃ sent : doc,
    http_log (snd (run (BackupScheduleResource.update sample_client
                          {| _info := sample_schedule; server := sample_server |}
                          {["daily" := VStr "H_0200_0400"]})))
    = [POST "/servers/1234/backup_schedule" {["backupSchedule" := sent]}]
    ∧ sent = {["daily" := VStr "H_0200_0400"]} ∪ update_defaults
    ∧ (∀ f, f ∈ dom ({["daily" := VStr "H_0200_0400"]} : doc) →
            sent !! f = ({["daily" := VStr "H_0200_0400"]} : doc) !! f)
    ∧ (∀ f, f ∉ dom ({["daily" := VStr "H_0200_0400"]} : doc) →
            sent !! f = update_defaults !! f).
Proof.
  apply (update_sends_overrides_over_defaults sample_client
           {| _info := sample_schedule; server := sample_server |}
           {["daily" := VStr "H_0200_0400"]}).
  apply (bool_decide_unpack _). vm_compute. exact I.
Defined.

(** C1 fails as stated.  The schedule last fetched is
    [{enabled: true, weekly: SUNDAY, daily: DISABLED, rotation: 2}] and the
    only override is [daily = h_0200_0400]; the command posts
    [{enabled: True, weekly: 'disabled', daily: 'H_0200_0400', rotation: 0}]:
    [weekly] and [rotation] are absent from the overrides and yet differ
    from the fetched document. *)
Lemma update_forgets_fetched_fields :
  let args := {| args_server := "web1"; args_enabled := None;
                 args_weekly := None; args_daily := Some "h_0200_0400";
                 args_rotation := None |} in
  let sent : doc :=
    <["enabled" := VBool true]> (<["weekly" := VStr "disabled"]>
      (<["daily" := VStr "H_0200_0400"]> (<["rotation" := VInt 0]> ∅))) in
  let claimed : doc :=
    <["enabled" := VBool true]> (<["weekly" := VStr "SUNDAY"]>
      (<["daily" := VStr "H_0200_0400"]> (<["rotation" := VInt 2]> ∅))) in
  client_get sample_client "/servers/1234/backup_schedule"
    = Some {["backupSchedule" := sample_schedule]}
  ∧ run (do_backup_schedule sample_client args) =
    (inr tt,
     {| http_log := [GET "/servers/1234/backup_schedule";
                     POST "/servers/1234/backup_schedule"
                       {["backupSchedule" := sent]}];
        stdout := [] |})
  ∧ sent ≠ claimed
  ∧ ("weekly" ∉ dom (backup_of_args args))
  ∧ sent !! "weekly" ≠ sample_schedule !! "weekly"
  ∧ ("rotation" ∉ dom (backup_of_args args))
  ∧ sent !! "rotation" ≠ sample_schedule !! "rotation".
Proof.
  simpl. split; [reflexivity|]. split; [vm_compute; reflexivity|].
  split.
  { intros Heq. apply (f_equal (.!! "weekly")) in Heq.
    vm_compute in Heq. discriminate. }
  split.
  { intros Hin%(bool_decide_pack _). vm_compute in Hin. exact Hin. }
  split; [vm_compute; discriminate|].
  split.
  { intros Hin%(bool_decide_pack _). vm_compute in Hin. exact Hin. }
  vm_compute; discriminate.
Qed.

(** ** What the command posts *)

Lemma update_document_lookup (kwargs : doc) :
  update_document kwargs !! "enabled" = Some (bind_param kwargs "enabled" (VBool true))
  ∧ update_document kwargs !! "weekly" = Some (bind_param kwargs "weekly" (VStr "disabled"))
  ∧ update_document kwargs !! "daily" = Some (bind_param kwargs "daily" (VStr "disabled"))
  ∧ update_document kwargs !! "rotation" = Some (bind_param kwargs "rotation" (VInt 0)).
Proof. unfold update_document. repeat split; by simplify_map_eq. Qed.

Lemma backup_of_args_empty (args : Args) :
  backup_of_args args = ∅ ↔
  args_enabled args = None ∧ args_rotation args = None
  ∧ truthy (args_daily args) = false ∧ truthy (args_weekly args) = false.
Proof.
  destruct (backup_of_args_lookup args) as (He & Hr & Hd & Hw).
  split.
  - intros Hempty. rewrite Hempty in He, Hr, Hd, Hw.
    rewrite lookup_empty in He, Hr, Hd, Hw.
    destruct (args_enabled args), (args_rotation args); try discriminate.
    destruct (truthy (args_daily args)) eqn:Htd.
    { apply truthy_spec in Htd as (? & Hs & _). by rewrite Hs in Hd. }
    destruct (truthy (args_weekly args)) eqn:Htw.
    { apply truthy_spec in Htw as (? & Hs & _). by rewrite Hs in Hw. }
    done.
  - intros (Hne & Hnr & Hnd & Hnw). unfold backup_of_args.
    rewrite Hne, Hnr.
    destruct (args_daily args) as [[|c d]|]; try discriminate;
      destruct (args_weekly args) as [[|c' w]|]; by try discriminate.
Qed.

Lemma do_backup_schedule_posts (cs : Client) (args : Args)
    (srv : Server) (b : body) (d : doc) :
  find_resource cs (args_server args) = Some srv →
  client_get cs (schedule_url srv) = Some b →
  b !! "backupSchedule" = Some d →
  backup_of_args args ≠ ∅ →
  http_log (snd (run (do_backup_schedule cs args))) =
  [GET (schedule_url srv);
   POST (schedule_url srv)
     {["backupSchedule" := update_document (backup_of_args args)]}]
  ∧ stdout (snd (run (do_backup_schedule cs args))) = [].
Proof.
  intros Hfind Hget Hkey Hne.
  rewrite do_backup_schedule_run, Hfind. simpl. rewrite Hget, Hkey.
  by rewrite decide_False by done.
Qed.

Lemma command_posts (cs : Client) (ref : string) (flags : list flag)
    (u : string) (p : body) :
  POST u p ∈ http_log (snd (run (backup_schedule_command cs ref flags))) →
  ∃ args, parse_args ref flags = inr args
          ∧ p = {["backupSchedule" := update_document (backup_of_args args)]}.
Proof.
  unfold backup_schedule_command.
  destruct (parse_args ref flags) as [e|args] eqn:Hparse.
  { simpl. intros Hin. by apply elem_of_nil in Hin. }
  intros Hposted. exists args. split; [done|]. revert Hposted.
  rewrite do_backup_schedule_run.
  destruct (find_resource cs (args_server args)) as [srv|]; simpl;
    [|intros Hin; by apply elem_of_nil in Hin].
  destruct (client_get cs (schedule_url srv)) as [b|]; simpl;
    [|intros [[=]|Hin%elem_of_nil]%elem_of_cons; done].
  destruct (b !! "backupSchedule") as [d|]; simpl;
    [|intros [[=]|Hin%elem_of_nil]%elem_of_cons; done].
  destruct (decide (backup_of_args args = ∅)); simpl;
    [intros [[=]|Hin%elem_of_nil]%elem_of_cons; done|].
  intros [[=]|[[= _ ->]|Hin%elem_of_nil]%elem_of_cons]%elem_of_cons; done.
Qed.

(** ** Vocabulary checks at the command line *)




(** C2, as the code has it: in every document the command posts, a
    [weekly] field the user supplied is one of the eight days and a
    [daily] field the user supplied is one of the thirteen windows. *)
Theorem supplied_fields_are_in_vocabulary (cs : Client) (ref : string)
    (flags : list flag) (u : string) (p : body) (sent : doc) :
  POST u p ∈ http_log (snd (run (backup_schedule_command cs ref flags))) →
  p !! "backupSchedule" = Some sent →
  ((∃ w, Weekly w ∈ flags) → in_choices DAY_CHOICES (sent !! "weekly"))
  ∧ ((∃ d, Daily d ∈ flags) → in_choices HOUR_CHOICES (sent !! "daily")).
Proof.
  intros (args & Hparse & ->)%command_posts Hsent.
  rewrite lookup_singleton_eq in Hsent. injection Hsent as <-.
  destruct (parse_args_vocab _ _ _ Hparse) as [Hvw Hvd].
  destruct (take_flags_keeps _ _ _ Hparse) as [Hkw Hkd].
  destruct (update_document_lookup (backup_of_args args)) as (_ & Hw & Hd & _).
  destruct (backup_of_args_lookup args) as (_ & _ & Hbd & Hbw).
  split.
  - intros Hsup. destruct Hkw as [w Hargs]; [by right|].
    destruct (upper_day w (Hvw _ Hargs)) as [Hup Htr].
    exists w. split; [|by apply Hvw].
    rewrite Hw. unfold bind_param. rewrite Hbw, Hargs, Htr. simpl.
    by rewrite Hup.
  - intros Hsup. destruct Hkd as [d Hargs]; [by right|].
    destruct (upper_hour d (Hvd _ Hargs)) as [Hup Htr].
    exists d. split; [|by apply Hvd].
    rewrite Hd. unfold bind_param. rewrite Hbd, Hargs, Htr. simpl.
    by rewrite Hup.
Qed.

Lemma supplied_fields_are_in_vocabulary_witness :
  let sent : doc :=
    <["enabled" := VBool true]> (<["weekly" := VStr "MONDAY"]>
      (<["daily" := VStr "H_0200_0400"]> (<["rotation" := VInt 0]> ∅))) in
  in_choices DAY_CHOICES (sent !! "weekly")
  ∧ in_choices HOUR_CHOICES (sent !! "daily").
Proof.
  intros sent.
  destruct (supplied_fields_are_in_vocabulary sample_client "web1"
              [Weekly "MONDAY"; Daily "H_0200_0400"]
              "/servers/1234/backup_schedule"
              {["backupSchedule" := sent]} sent) as [Hw Hd].
  - vm_compute. apply list_elem_of_further, list_elem_of_here.
  - vm_compute. reflexivity.
  - split.
    + apply Hw. exists "MONDAY". apply list_elem_of_here.
    + apply Hd. exists "H_0200_0400".
      apply list_elem_of_further, list_elem_of_here.
Defined.

(** C2 fails as stated.  With [--daily H_0200_0400] alone the command posts
    [weekly = 'disabled'], the lower-case default of [update], which is not
    one of the eight days; and the manager's [create] posts whatever it is
    given, here [weekly = 'FUNDAY']. *)
Lemma unsupplied_weekly_is_outside_vocabulary :
  let sent : doc :=
    <["enabled" := VBool true]> (<["weekly" := VStr "disabled"]>
      (<["daily" := VStr "H_0200_0400"]> (<["rotation" := VInt 0]> ∅))) in
  let direct : doc :=
    <["enabled" := VBool true]> (<["weekly" := VStr "FUNDAY"]>
      (<["daily" := VStr "DISABLED"]> (<["rotation" := VInt 0]> ∅))) in
  http_log (snd (run (backup_schedule_command sample_client "web1"
                        [Daily "H_0200_0400"])))
  = [GET "/servers/1234/backup_schedule";
     POST "/servers/1234/backup_schedule" {["backupSchedule" := sent]}]
  ∧ ¬ in_choices DAY_CHOICES (sent !! "weekly")
  ∧ http_log (snd (run (BackupScheduleManager.create sample_client
                          sample_server (VBool true) (VStr "FUNDAY")
                          (VStr "DISABLED") (VInt 0))))
    = [POST "/servers/1234/backup_schedule" {["backupSchedule" := direct]}]
  ∧ ¬ in_choices DAY_CHOICES (direct !! "weekly").
Proof.
  simpl. split; [vm_compute; reflexivity|]. split.
  { intros (s & Hs & Hin). vm_compute in Hs. injection Hs as <-.
    revert Hin. apply (bool_decide_unpack _). vm_compute. exact I. }
  split; [vm_compute; reflexivity|].
  intros (s & Hs & Hin). vm_compute in Hs. injection Hs as <-.
  revert Hin. apply (bool_decide_unpack _). vm_compute. exact I.
Qed.

(** ** Rotation *)

(** C3, as the code has it: the parser takes any text for [--rotation],
    negative or not numeric included, and whatever the namespace holds for
    it is what the posted document carries, as a string; so zero and every
    positive integer are accepted too. *)
Theorem rotation_is_sent_unchecked (cs : Client) (args : Args) (r : string)
    (srv : Server) (b : body) (d : doc) :
  args_rotation args = Some r →
  find_resource cs (args_server args) = Some srv →
  client_get cs (schedule_url srv) = Some b →
  b !! "backupSchedule" = Some d →
  (∀ ns, ∃ ns', take_flag ns (Rotation r) = inr ns'
                ∧ args_rotation ns' = Some r)
  ∧ parse_args (args_server args) [Rotation r] =
      inr {| args_server := args_server args; args_enabled := None;
             args_weekly := None; args_daily := None;
             args_rotation := Some r |}
  ∧ ∃ sent : doc,
      http_log (snd (run (do_backup_schedule cs args))) =
        [GET (schedule_url srv);
         POST (schedule_url srv) {["backupSchedule" := sent]}]
      ∧ sent !! "rotation" = Some (VStr r).
Proof.
  intros Hrot Hfind Hget Hkey. split; [|split].
  - intros ns. by eexists.
  - done.
  - exists (update_document (backup_of_args args)).
    destruct (backup_of_args_lookup args) as (_ & Hr & _).
    split.
    + apply (do_backup_schedule_posts cs args srv b d); try done.
      intros Hempty. rewrite Hempty, Hrot, lookup_empty in Hr. discriminate.
    + destruct (update_document_lookup (backup_of_args args)) as (_ & _ & _ & ->).
      unfold bind_param. by rewrite Hr, Hrot.
Qed.

Lemma rotation_is_sent_unchecked_witness :
  ∃ sent : doc,
    http_log (snd (run (do_backup_schedule sample_client
                          {| args_server := "web1"; args_enabled := None;
                             args_weekly := None; args_daily := None;
                             args_rotation := Some "7" |}))) =
      [GET "/servers/1234/backup_schedule";
       POST "/servers/1234/backup_schedule" {["backupSchedule" := sent]}]
    ∧ sent !! "rotation" = Some (VStr "7").
Proof.
  apply (rotation_is_sent_unchecked sample_client
           {| args_server := "web1"; args_enabled := None;
              args_weekly := None; args_daily := None;
              args_rotation := Some "7" |} "7" sample_server
           {["backupSchedule" := sample_schedule]} sample_schedule);
    vm_compute; reflexivity.
Defined.

(** C3 fails as stated.  [--rotation abc] and [--rotation=-5] are not
    refused: the command ends normally after a GET and a POST, and the
    posted document carries the text as it was given. *)
Lemma bad_rotation_is_posted :
  let sent (r : string) : doc :=
    <["enabled" := VBool true]> (<["weekly" := VStr "disabled"]>
      (<["daily" := VStr "disabled"]> (<["rotation" := VStr r]> ∅))) in
  run (backup_schedule_command sample_client "web1" [Rotation "abc"]) =
    (inr tt,
     {| http_log := [GET "/servers/1234/backup_schedule";
                     POST "/servers/1234/backup_schedule"
                       {["backupSchedule" := sent "abc"]}];
        stdout := [] |})
  ∧ run (backup_schedule_command sample_client "web1" [Rotation "-5"]) =
    (inr tt,
     {| http_log := [GET "/servers/1234/backup_schedule";
                     POST "/servers/1234/backup_schedule"
                       {["backupSchedule" := sent "-5"]}];
        stdout := [] |}).
Proof. simpl. split; vm_compute; reflexivity. Qed.

(** ** Case of the letters *)

Lemma take_flags_server (flags : list flag) (ns args : Args) :
  take_flags ns flags = inr args → args_server args = args_server ns.
Proof.
  revert ns. induction flags as [|f flags IH]; intros ns; simpl.
  - by intros [= <-].
  - destruct (take_flag ns f) as [e|ns'] eqn:Hf; [discriminate|].
    intros ->%IH. destruct f as [| |w|d|r]; simpl in Hf.
    1,2,5: by injection Hf as <-.
    + destruct (check_choice _ w _); [discriminate|]. by injection Hf as <-.
    + destruct (check_choice _ d _); [discriminate|]. by injection Hf as <-.
Qed.

(** C5, as the code has it: the parser compares a day or a window with the
    upper-case lists as it is written and lets through exactly the members
    of its list: each member is accepted, in any namespace and as a command
    line of its own, and nothing else is.  The command upper-cases a value
    let through, which leaves it as it is, and places it in the posted
    document. *)
Theorem accepted_choices_are_upper_case (cs : Client) (ref : string)
    (flags : list flag) (args : Args) :
  (∀ ns w, (∃ ns', take_flag ns (Weekly w) = inr ns') ↔ w ∈ DAY_CHOICES)
  ∧ (∀ ns d, (∃ ns', take_flag ns (Daily d) = inr ns') ↔ d ∈ HOUR_CHOICES)
  ∧ (∀ w, w ∈ DAY_CHOICES →
          parse_args ref [Weekly w] =
          inr {| args_server := ref; args_enabled := None;
                 args_weekly := Some w; args_daily := None;
                 args_rotation := None |})
  ∧ (∀ d, d ∈ HOUR_CHOICES →
          parse_args ref [Daily d] =
          inr {| args_server := ref; args_enabled := None;
                 args_weekly := None; args_daily := Some d;
                 args_rotation := None |})
  ∧ (parse_args ref flags = inr args →
  (∀ w, Weekly w ∈ flags → w ∈ DAY_CHOICES ∧ upper w = w)
  ∧ (∀ d, Daily d ∈ flags → d ∈ HOUR_CHOICES ∧ upper d = d)
  ∧ (∀ w, args_weekly args = Some w →
          w ∈ DAY_CHOICES ∧ upper w = w
          ∧ backup_of_args args !! "weekly" = Some (VStr (upper w)))
  ∧ (∀ d, args_daily args = Some d →
          d ∈ HOUR_CHOICES ∧ upper d = d
          ∧ backup_of_args args !! "daily" = Some (VStr (upper d)))
  ∧ (∀ srv b d0,
       find_resource cs ref = Some srv →
       client_get cs (schedule_url srv) = Some b →
       b !! "backupSchedule" = Some d0 →
       is_Some (args_weekly args) ∨ is_Some (args_daily args) →
       ∃ sent : doc,
         http_log (snd (run (backup_schedule_command cs ref flags))) =
           [GET (schedule_url srv);
            POST (schedule_url srv) {["backupSchedule" := sent]}]
         ∧ (∀ w, args_weekly args = Some w → sent !! "weekly" = Some (VStr w))
         ∧ (∀ d, args_daily args = Some d → sent !! "daily" = Some (VStr d)))).
Proof.
  split; [|split; [|split; [|split]]].
  { intros ns w. split.
    - intros [ns' Hok] . destruct (decide (w ∈ DAY_CHOICES)) as [|Hout]; [done|].
      by destruct (take_flag_accepted _ _ _ Hok).
    - intros Hin. apply take_flag_succeeds. simpl. tauto. }
  { intros ns d. split.
    - intros [ns' Hok] . destruct (decide (d ∈ HOUR_CHOICES)) as [|Hout]; [done|].
      by destruct (take_flag_accepted _ _ _ Hok).
    - intros Hin. apply take_flag_succeeds. simpl. tauto. }
  { intros w Hin. unfold parse_args, take_flags, take_flag, check_choice.
    by rewrite decide_True. }
  { intros d Hin. unfold parse_args, take_flags, take_flag, check_choice.
    by rewrite decide_True. }
  intros Hparse.
  destruct (parse_args_vocab _ _ _ Hparse) as [Hvw Hvd].
  destruct (backup_of_args_lookup args) as (_ & _ & Hbd & Hbw).
  assert (Hweekly : ∀ w, args_weekly args = Some w →
            w ∈ DAY_CHOICES ∧ upper w = w
            ∧ backup_of_args args !! "weekly" = Some (VStr (upper w))).
  { intros w Hw. destruct (upper_day w (Hvw _ Hw)) as [Hup Htr].
    split; [by apply Hvw|]. split; [done|]. by rewrite Hbw, Hw, Htr. }
  assert (Hdaily : ∀ d, args_daily args = Some d →
            d ∈ HOUR_CHOICES ∧ upper d = d
            ∧ backup_of_args args !! "daily" = Some (VStr (upper d))).
  { intros d Hd. destruct (upper_hour d (Hvd _ Hd)) as [Hup Htr].
    split; [by apply Hvd|]. split; [done|]. by rewrite Hbd, Hd, Htr. }
  split; [|split; [|split; [exact Hweekly|split; [exact Hdaily|]]]].
  - intros w Hin.
    assert (w ∈ DAY_CHOICES) as Hmem.
    { destruct (decide (w ∈ DAY_CHOICES)) as [|Hout]; [done|].
      by destruct (take_flags_accepted _ _ _ (Weekly w) Hparse Hin). }
    split; [done|]. by apply upper_day.
  - intros d Hin.
    assert (d ∈ HOUR_CHOICES) as Hmem.
    { destruct (decide (d ∈ HOUR_CHOICES)) as [|Hout]; [done|].
      by destruct (take_flags_accepted _ _ _ (Daily d) Hparse Hin). }
    split; [done|]. by apply upper_hour.
  - intros srv b d0 Hfind Hget Hkey Hsome.
    exists (update_document (backup_of_args args)).
    destruct (update_document_lookup (backup_of_args args)) as (_ & Hw & Hd & _).
    split; [|split].
    + unfold backup_schedule_command. rewrite Hparse.
      apply (do_backup_schedule_posts cs args srv b d0); try done.
      * by rewrite (take_flags_server _ _ _ Hparse).
      * intros Hempty. destruct Hsome as [[w Hs]|[d Hs]].
        -- destruct (Hweekly w Hs) as (_ & _ & Hl).
           rewrite Hempty, lookup_empty in Hl. discriminate.
        -- destruct (Hdaily d Hs) as (_ & _ & Hl).
           rewrite Hempty, lookup_empty in Hl. discriminate.
    + intros w Hs. destruct (Hweekly w Hs) as (_ & Hup & Hl).
      rewrite Hw. unfold bind_param. rewrite Hl. simpl. by rewrite Hup.
    + intros d Hs. destruct (Hdaily d Hs) as (_ & Hup & Hl).
      rewrite Hd. unfold bind_param. rewrite Hl. simpl. by rewrite Hup.
Qed.

Lemma accepted_choices_are_upper_case_witness :
  ∃ sent : doc,
    http_log (snd (run (backup_schedule_command sample_client "web1"
                          [Weekly "SUNDAY"; Daily "H_0200_0400"]))) =
      [GET "/servers/1234/backup_schedule";
       POST "/servers/1234/backup_schedule" {["backupSchedule" := sent]}]
    ∧ sent !! "weekly" = Some (VStr "SUNDAY")
    ∧ sent !! "daily" = Some (VStr "H_0200_0400").
Proof.
  destruct (accepted_choices_are_upper_case sample_client "web1"
              [Weekly "SUNDAY"; Daily "H_0200_0400"]
              {| args_server := "web1"; args_enabled := None;
                 args_weekly := Some "SUNDAY";
                 args_daily := Some "H_0200_0400";
                 args_rotation := None |})
    as (_ & _ & _ & _ & Hparsed).
  destruct Hparsed as (_ & _ & _ & _ & Hsent); [vm_compute; reflexivity|].
  destruct (Hsent sample_server {["backupSchedule" := sample_schedule]}
              sample_schedule) as (sent & Hlog & Hw & Hd);
    [vm_compute; reflexivity .. | left; by eexists |].
  exists sent. split; [exact Hlog|]. split; [by apply Hw | by apply Hd].
Defined.

(** C5 fails as stated.  The lower-case spellings [sunday] and
    [h_0200_0400] are refused by the parser as invalid choices, before any
    request. *)
Lemma lower_case_is_refused :
  run (backup_schedule_command sample_client "web1" [Weekly "sunday"]) =
    (inl (SystemExit 2 "argument --weekly: invalid choice: 'sunday'"), world0)
  ∧ run (backup_schedule_command sample_client "web1" [Daily "h_0200_0400"]) =
    (inl (SystemExit 2 "argument --daily: invalid choice: 'h_0200_0400'"),
     world0).
Proof. split; vm_compute; reflexivity. Qed.

(** ** Showing the schedule *)

(** C8, as the code has it: with no override the command only reads.
    Whatever happens, its log holds nothing but GETs; when the server
    resolves and the schedule is fetched, the log is that one GET and the
    output is one table whose rows are the fields of the fetched document,
    key by value. *)
Theorem show_is_a_pure_read (cs : Client) (args : Args) :
  args_enabled args = None →
  args_rotation args = None →
  truthy (args_daily args) = false →
  truthy (args_weekly args) = false →
  (∀ r, r ∈ http_log (snd (run (do_backup_schedule cs args))) → ∃ u, r = GET u)
  ∧ (∀ srv b d,
       find_resource cs (args_server args) = Some srv →
       client_get cs (schedule_url srv) = Some b →
       b !! "backupSchedule" = Some d →
       run (do_backup_schedule cs args) =
         (inr tt, {| http_log := [GET (schedule_url srv)];
                     stdout := [map_to_list d] |})
       ∧ (∀ k v, (k, v) ∈ map_to_list d ↔ d !! k = Some v)).
Proof.
  intros He Hr Hd Hw.
  assert (backup_of_args args = ∅) as Hempty by by apply backup_of_args_empty.
  rewrite do_backup_schedule_run. split.
  - destruct (find_resource cs (args_server args)) as [srv|]; simpl;
      [|intros r Hin; by apply elem_of_nil in Hin].
    destruct (client_get cs (schedule_url srv)) as [b|]; simpl;
      [|intros r [->|Hin%elem_of_nil]%elem_of_cons; [by eexists|done]].
    destruct (b !! "backupSchedule") as [d|]; simpl;
      [|intros r [->|Hin%elem_of_nil]%elem_of_cons; [by eexists|done]].
    rewrite decide_True by done. simpl.
    intros r [->|Hin%elem_of_nil]%elem_of_cons; [by eexists|done].
  - intros srv b d -> Hget Hkey. simpl. rewrite Hget, Hkey.
    rewrite decide_True by done. split; [done|].
    intros k v. apply elem_of_map_to_list.
Qed.

Lemma show_is_a_pure_read_witness :
  run (do_backup_schedule sample_client
         {| args_server := "web1"; args_enabled := None; args_weekly := None;
            args_daily := None; args_rotation := None |}) =
  (inr tt, {| http_log := [GET "/servers/1234/backup_schedule"];
              stdout := [map_to_list sample_schedule] |}).
Proof.
  destruct (show_is_a_pure_read sample_client
              {| args_server := "web1"; args_enabled := None;
                 args_weekly := None; args_daily := None;
                 args_rotation := None |}) as [_ Hshow];
    [reflexivity .. |].
  apply (Hshow sample_server {["backupSchedule" := sample_schedule]}
           sample_schedule); vm_compute; reflexivity.
Defined.

(** C8 fails as stated.  The schedule is fetched and then updated with an
    empty set of overrides: what is posted is the set of defaults of
    [update], not the document that was fetched. *)
Lemma empty_update_is_not_a_round_trip :
  run (fetched ← BackupScheduleManager.get sample_client sample_server;
       BackupScheduleResource.update sample_client fetched ∅) =
    (inr tt,
     {| http_log := [GET "/servers/1234/backup_schedule";
                     POST "/servers/1234/backup_schedule"
                       {["backupSchedule" := update_defaults]}];
        stdout := [] |})
  ∧ client_get sample_client "/servers/1234/backup_schedule"
    = Some {["backupSchedule" := sample_schedule]}
  ∧ update_defaults ≠ sample_schedule.
Proof.
  split; [vm_compute; reflexivity|]. split; [reflexivity|].
  intros Heq. apply (f_equal (.!! "weekly")) in Heq.
  vm_compute in Heq. discriminate.
Qed.

(** ** Order of the requests *)

(** C9: the show/update command and the delete command read before they
    write.  Without a resolved server nothing is requested; otherwise the
    log starts with the one GET of the schedule and holds at most one more
    request, a POST (or, for delete, a DELETE) to the same endpoint, which
    is there only when the GET handed back a schedule.  A command line the
    parser refuses requests nothing. *)
Theorem read_precedes_write (cs : Client) (args : Args) (ref : string)
    (flags : list flag) :
  match find_resource cs (args_server args) with
  | None => http_log (snd (run (do_backup_schedule cs args))) = []
  | Some srv =>
      let u := schedule_url srv in
      http_log (snd (run (do_backup_schedule cs args))) = [GET u]
      ∨ ∃ p b d,
          http_log (snd (run (do_backup_schedule cs args))) = [GET u; POST u p]
          ∧ client_get cs u = Some b ∧ b !! "backupSchedule" = Some d
  end
  ∧ match find_resource cs ref with
    | None => http_log (snd (run (do_backup_schedule_delete cs ref))) = []
    | Some srv =>
        let u := schedule_url srv in
        http_log (snd (run (do_backup_schedule_delete cs ref))) = [GET u]
        ∨ ∃ b d,
            http_log (snd (run (do_backup_schedule_delete cs ref)))
              = [GET u; DELETE u]
            ∧ client_get cs u = Some b ∧ b !! "backupSchedule" = Some d
    end
  ∧ match parse_args ref flags with
    | inl e => run (backup_schedule_command cs ref flags) = (inl e, world0)
    | inr parsed =>
        run (backup_schedule_command cs ref flags)
          = run (do_backup_schedule cs parsed)
    end.
Proof.
  split; [|split].
  - rewrite do_backup_schedule_run.
    destruct (find_resource cs (args_server args)) as [srv|]; [|done]. simpl.
    destruct (client_get cs (schedule_url srv)) as [b|]; [|by left].
    destruct (b !! "backupSchedule") as [d|] eqn:Hkey; [|by left].
    destruct (decide (backup_of_args args = ∅)); [by left|].
    right. by eexists _, b, d.
  - rewrite do_backup_schedule_delete_run.
    destruct (find_resource cs ref) as [srv|]; [|done]. simpl.
    destruct (client_get cs (schedule_url srv)) as [b|]; [|by left].
    destruct (b !! "backupSchedule") as [d|] eqn:Hkey; [|by left].
    right. by eexists b, d.
  - unfold backup_schedule_command. by destruct (parse_args ref flags).
Qed.

(** * Further properties of the module *)

(** ** [pretty_choice_list] *)

Lemma join_cons (sep x : string) (l : list string) :
  l ≠ [] → join sep (x :: l) = x +:+ sep +:+ join sep l.
Proof. by destruct l. Qed.

Lemma join_app (sep : string) (l1 l2 : list string) :
  l1 ≠ [] → l2 ≠ [] →
  join sep (l1 ++ l2) = join sep l1 +:+ sep +:+ join sep l2.
Proof.
  intros H1 H2. induction l1 as [|x l1 IH]; [done|].
  destruct l1 as [|y l1].
  - simpl. by destruct l2.
  - rewrite <- app_comm_cons.
    rewrite join_cons by done. rewrite IH by done.
    rewrite (join_cons sep x (y :: l1)) by done.
    by rewrite !append_assoc.
Qed.

(** X1: the listing of a concatenation is the two listings with one
    separator between them, as long as neither part is empty. *)
Theorem pretty_choice_list_app (l1 l2 : list string) :
  l1 ≠ [] → l2 ≠ [] →
  pretty_choice_list (l1 ++ l2) =
  pretty_choice_list l1 +:+ ", " +:+ pretty_choice_list l2.
Proof.
  intros H1 H2. unfold pretty_choice_list. rewrite map_app.
  apply join_app; by destruct l1, l2.
Qed.

Lemma pretty_choice_list_app_witness :
  pretty_choice_list (["A"; "B"] ++ ["C"]) =
  pretty_choice_list ["A"; "B"] +:+ ", " +:+ pretty_choice_list ["C"].
Proof. apply (pretty_choice_list_app ["A"; "B"] ["C"]); discriminate. Defined.

(** X2: the listing of a list that is not empty has the length of its
    items plus two quotes for each item and two characters for each of the
    separators between neighbours. *)
Theorem pretty_choice_list_length (l : list string) :
  l ≠ [] →
  String.length (pretty_choice_list l) =
  (total_length l + 2 * length l + 2 * (length l - 1))%nat.
Proof.
  unfold pretty_choice_list. induction l as [|x l IH]; [done|]. intros _.
  destruct l as [|y l].
  - simpl. rewrite !length_append. unfold total_length. simpl. lia.
  - change (map _ (x :: y :: l)) with
      (("'" +:+ x +:+ "'") :: map (fun i => "'" +:+ i +:+ "'") (y :: l)).
    rewrite join_cons by done. rewrite !length_append, IH by done.
    unfold total_length. simpl. lia.
Qed.

Lemma pretty_choice_list_length_witness :
  String.length (pretty_choice_list DAY_CHOICES) =
  (total_length DAY_CHOICES + 2 * 8 + 2 * 7)%nat.
Proof. apply (pretty_choice_list_length DAY_CHOICES). discriminate. Defined.

(** ** The parser, flag by flag *)

Lemma take_flag_last (ns ns' : Args) (f : flag) :
  take_flag ns f = inr ns' →
  args_server ns' = args_server ns
  ∧ args_enabled ns' = from_option Some (args_enabled ns) (pick_enabled f)
  ∧ args_weekly ns' = from_option Some (args_weekly ns) (pick_weekly f)
  ∧ args_daily ns' = from_option Some (args_daily ns) (pick_daily f)
  ∧ args_rotation ns' = from_option Some (args_rotation ns) (pick_rotation f).
Proof.
  destruct f as [| |w|d|r]; simpl.
  1,2,5: by intros [= <-].
  - destruct (check_choice _ w _) eqn:Hc; [discriminate|].
    apply check_choice_inr in Hc as [-> _]. by intros [= <-].
  - destruct (check_choice _ d _) eqn:Hc; [discriminate|].
    apply check_choice_inr in Hc as [-> _]. by intros [= <-].
Qed.

Lemma last_of_step {A : Type} (pick : flag → option A) (f : flag)
    (acc : option A) :
  match pick f with Some a => Some a | None => acc end
  = from_option Some acc (pick f).
Proof. by destruct (pick f). Qed.

Lemma take_flags_last (flags : list flag) (ns args : Args) :
  take_flags ns flags = inr args →
  args_server args = args_server ns
  ∧ args_enabled args = last_of pick_enabled flags (args_enabled ns)
  ∧ args_weekly args = last_of pick_weekly flags (args_weekly ns)
  ∧ args_daily args = last_of pick_daily flags (args_daily ns)
  ∧ args_rotation args = last_of pick_rotation flags (args_rotation ns).
Proof.
  revert ns. induction flags as [|f flags IH]; intros ns; simpl.
  - by intros [= <-].
  - destruct (take_flag ns f) as [e|ns'] eqn:Hf; [discriminate|].
    intros (Hs & He & Hw & Hd & Hr)%IH.
    destruct (take_flag_last _ _ _ Hf) as (Hs' & He' & Hw' & Hd' & Hr').
    rewrite !last_of_step.
    by rewrite Hs, He, Hw, Hd, Hr, Hs', He', Hw', Hd', Hr'.
Qed.

(** X4: in the parsed arguments each destination holds what the last flag
    aimed at it stored, and [None] when no flag was aimed at it:
    [--enable] and [--disable] share one destination, a repeated
    [--weekly], [--daily] or [--rotation] replaces the earlier one, and
    [server] is the positional argument. *)
Theorem parsed_arguments_follow_last_flag (ref : string) (flags : list flag)
    (args : Args) :
  parse_args ref flags = inr args →
  args_server args = ref
  ∧ args_enabled args = last_of pick_enabled flags None
  ∧ args_weekly args = last_of pick_weekly flags None
  ∧ args_daily args = last_of pick_daily flags None
  ∧ args_rotation args = last_of pick_rotation flags None.
Proof. intros Hparse. by apply take_flags_last in Hparse. Qed.

Lemma parsed_arguments_follow_last_flag_witness :
  parse_args "web1" [Enable; Weekly "MONDAY"; Disable; Weekly "FRIDAY"] =
    inr {| args_server := "web1"; args_enabled := Some false;
           args_weekly := Some "FRIDAY"; args_daily := None;
           args_rotation := None |}
  ∧ last_of pick_enabled [Enable; Weekly "MONDAY"; Disable; Weekly "FRIDAY"]
      None = Some false
  ∧ last_of pick_weekly [Enable; Weekly "MONDAY"; Disable; Weekly "FRIDAY"]
      None = Some "FRIDAY".
Proof.
  assert (Hparse :
    parse_args "web1" [Enable; Weekly "MONDAY"; Disable; Weekly "FRIDAY"] =
    inr {| args_server := "web1"; args_enabled := Some false;
           args_weekly := Some "FRIDAY"; args_daily := None;
           args_rotation := None |}) by (vm_compute; reflexivity).
  destruct (parsed_arguments_follow_last_flag _ _ _ Hparse)
    as (_ & He & Hw & _).
  split; [exact Hparse|]. split; [by rewrite <- He | by rewrite <- Hw].
Defined.

(** ** Outcomes of the show/update command *)

(** X6: when the show/update command ends normally, the server resolved,
    the GET handed back a body with the key ["backupSchedule"], and either
    there was no override or the client accepted the POST of the document
    built from the overrides.  Conversely, when all that holds and the
    fetched document has no field besides the four of a schedule, the
    command ends normally. *)
Theorem do_backup_schedule_success (cs : Client) (args : Args) :
  (fst (run (do_backup_schedule cs args)) = inr tt →
   ∃ srv b d,
     find_resource cs (args_server args) = Some srv
     ∧ client_get cs (schedule_url srv) = Some b
     ∧ b !! "backupSchedule" = Some d
     ∧ (backup_of_args args = ∅
        ∨ client_post cs (schedule_url srv)
            {["backupSchedule" := update_document (backup_of_args args)]}
          = true))
  ∧ (∀ srv b d,
       find_resource cs (args_server args) = Some srv →
       client_get cs (schedule_url srv) = Some b →
       b !! "backupSchedule" = Some d →
       dom d ⊆ update_params →
       backup_of_args args = ∅
       ∨ client_post cs (schedule_url srv)
           {["backupSchedule" := update_document (backup_of_args args)]}
         = true →
       fst (run (do_backup_schedule cs args)) = inr tt).
Proof.
  rewrite do_backup_schedule_run. split.
  - destruct (find_resource cs (args_server args)) as [srv|]; [|done]. simpl.
    destruct (client_get cs (schedule_url srv)) as [b|] eqn:Hget; [|done].
    destruct (b !! "backupSchedule") as [d|] eqn:Hkey; [|done].
    destruct (decide (backup_of_args args = ∅)) as [Hempty|Hsome].
    + intros _. exists srv, b, d. repeat split; try done. by left.
    + simpl. destruct (client_post cs _ _) eqn:Hpost; [|done].
      intros _. exists srv, b, d. repeat split; try done. by right.
  - intros srv b d -> Hget Hkey _ Hwrite. simpl.
    rewrite Hget, Hkey.
    destruct (decide (backup_of_args args = ∅)) as [Hempty|Hsome]; [done|].
    destruct Hwrite as [Hempty|Hpost]; [done|]. simpl. by rewrite Hpost.
Qed.

Lemma do_backup_schedule_success_witness :
  fst (run (do_backup_schedule sample_client
              {| args_server := "web1"; args_enabled := Some false;
                 args_weekly := None; args_daily := None;
                 args_rotation := None |})) = inr tt.
Proof.
  destruct (do_backup_schedule_success sample_client
              {| args_server := "web1"; args_enabled := Some false;
                 args_weekly := None; args_daily := None;
                 args_rotation := None |}) as [_ Hback].
  apply (Hback sample_server {["backupSchedule" := sample_schedule]}
           sample_schedule);
    [ reflexivity | reflexivity | reflexivity
    | apply (bool_decide_unpack _); vm_compute; exact I
    | right; reflexivity ].
Defined.

(** X7: the dictionary of overrides only ever has keys among the four
    keyword names of [update], whatever the arguments hold; unpacked into
    [update] it therefore binds, and the call adds exactly one POST, never
    ending on an unexpected keyword. *)
Theorem overrides_use_only_update_keywords (cs : Client)
    (self : BackupSchedule) (args : Args) (w : world) :
  dom (backup_of_args args) ⊆ update_params
  ∧ http_log (snd (BackupScheduleResource.update cs self (backup_of_args args) w))
    = (http_log w ++
       [POST (schedule_url (server self))
          {["backupSchedule" := update_document (backup_of_args args)]}])%list
  ∧ (∀ msg, fst (BackupScheduleResource.update cs self (backup_of_args args) w)
            ≠ inl (TypeError msg)).
Proof.
  split; [apply backup_of_args_dom|].
  rewrite resource_update_run by apply backup_of_args_dom. simpl.
  split; [done|]. intros msg. by destruct (client_post cs _ _).
Qed.

(** X8: with at least one override the show/update command prints
    nothing, whether it ends normally or not. *)
Theorem update_prints_nothing (cs : Client) (args : Args) :
  backup_of_args args ≠ ∅ →
  stdout (snd (run (do_backup_schedule cs args))) = [].
Proof.
  intros Hsome. rewrite do_backup_schedule_run.
  destruct (find_resource cs (args_server args)) as [srv|]; [|done]. simpl.
  destruct (client_get cs (schedule_url srv)) as [b|]; [|done].
  destruct (b !! "backupSchedule") as [d|]; [|done].
  by rewrite decide_False by done.
Qed.

Lemma update_prints_nothing_witness :
  stdout (snd (run (do_backup_schedule sample_client
                      {| args_server := "web1"; args_enabled := Some false;
                         args_weekly := None; args_daily := None;
                         args_rotation := None |}))) = [].
Proof.
  apply (update_prints_nothing sample_client
           {| args_server := "web1"; args_enabled := Some false;
              args_weekly := None; args_daily := None;
              args_rotation := None |}).
  intros Heq. apply (f_equal (.!! "enabled")) in Heq.
  vm_compute in Heq. discriminate.
Defined.

(** X9: a read that fails stops both commands before they write.  When the
    server resolves but the GET is refused, or its response lacks the key
    ["backupSchedule"], the only request made is that GET, nothing is
    printed, and the command ends with the read's exception, whatever
    overrides were given. *)
Theorem failed_read_stops_the_write (cs : Client) (args : Args)
    (srv : Server) :
  find_resource cs (args_server args) = Some srv →
  client_get cs (schedule_url srv) = None
  ∨ (∃ b, client_get cs (schedule_url srv) = Some b
          ∧ b !! "backupSchedule" = None) →
  ∃ e, (e = HTTPError (GET (schedule_url srv)) ∨ e = KeyError "backupSchedule")
       ∧ run (do_backup_schedule cs args) =
           (inl e, {| http_log := [GET (schedule_url srv)]; stdout := [] |})
       ∧ run (do_backup_schedule_delete cs (args_server args)) =
           (inl e, {| http_log := [GET (schedule_url srv)]; stdout := [] |}).
Proof.
  intros Hfind Hread.
  rewrite do_backup_schedule_run, do_backup_schedule_delete_run, Hfind. simpl.
  destruct Hread as [Hget|(b & Hget & Hkey)]; rewrite Hget; [|rewrite Hkey];
    eexists; (split; [|split; reflexivity]); [by left | by right].
Qed.

Lemma failed_read_stops_the_write_witness :
  let cs := {| find_resource := fun _ => Some sample_server;
               client_get := fun _ => None;
               client_post := fun _ _ => true;
               client_delete := fun _ => true |} in
  let args := {| args_server := "web1"; args_enabled := Some true;
                 args_weekly := None; args_daily := None;
                 args_rotation := Some "3" |} in
  ∃ e, (e = HTTPError (GET (schedule_url sample_server))
        ∨ e = KeyError "backupSchedule")
       ∧ run (do_backup_schedule cs args) =
           (inl e, {| http_log := [GET (schedule_url sample_server)];
                      stdout := [] |})
       ∧ run (do_backup_schedule_delete cs (args_server args)) =
           (inl e, {| http_log := [GET (schedule_url sample_server)];
                      stdout := [] |}).
Proof.
  intros cs args.
  apply (failed_read_stops_the_write cs args sample_server);
    [reflexivity | left; reflexivity].
Defined.

(** ** Outcomes of the delete command *)

(** X10: when the delete command ends normally, the server resolved, the
    schedule was first fetched, and the client accepted the DELETE.
    Conversely, when all that holds and the fetched document has no field
    besides the four of a schedule, the command ends normally.  In every
    case it prints nothing and posts nothing. *)
Theorem do_backup_schedule_delete_success (cs : Client) (ref : string) :
  (fst (run (do_backup_schedule_delete cs ref)) = inr tt →
   ∃ srv b d,
     find_resource cs ref = Some srv
     ∧ client_get cs (schedule_url srv) = Some b
     ∧ b !! "backupSchedule" = Some d
     ∧ client_delete cs (schedule_url srv) = true)
  ∧ (∀ srv b d,
       find_resource cs ref = Some srv →
       client_get cs (schedule_url srv) = Some b →
       b !! "backupSchedule" = Some d →
       dom d ⊆ update_params →
       client_delete cs (schedule_url srv) = true →
       fst (run (do_backup_schedule_delete cs ref)) = inr tt)
  ∧ stdout (snd (run (do_backup_schedule_delete cs ref))) = []
  ∧ (∀ u p, POST u p ∉ http_log (snd (run (do_backup_schedule_delete cs ref)))).
Proof.
  rewrite do_backup_schedule_delete_run.
  destruct (find_resource cs ref) as [srv|] eqn:Hfind; simpl.
  2: { split; [done|]. split; [by intros ? ? ? [=]|].
       split; [done|]. intros u p Hin. by apply elem_of_nil in Hin. }
  destruct (client_get cs (schedule_url srv)) as [b|] eqn:Hget; simpl.
  2: { split; [done|]. split.
       - intros ? ? ? [= <-] Hget'. congruence.
       - split; [done|].
         intros u p [[=]|Hin%elem_of_nil]%elem_of_cons; done. }
  destruct (b !! "backupSchedule") as [d|] eqn:Hkey; simpl.
  2: { split; [done|]. split.
       - intros ? ? ? [= <-] Hget' Hkey'. congruence.
       - split; [done|].
         intros u p [[=]|Hin%elem_of_nil]%elem_of_cons; done. }
  split; [|split].
  - destruct (client_delete cs (schedule_url srv)) eqn:Hdel; [|done].
    intros _. by exists srv, b, d.
  - intros ? ? ? [= <-] _ _ _ ->. done.
  - split; [done|].
    intros u p [[=]|[[=]|Hin%elem_of_nil]%elem_of_cons]%elem_of_cons; done.
Qed.

Lemma do_backup_schedule_delete_success_witness :
  fst (run (do_backup_schedule_delete sample_client "web1")) = inr tt.
Proof.
  destruct (do_backup_schedule_delete_success sample_client "web1")
    as (_ & Hback & _).
  apply (Hback sample_server {["backupSchedule" := sample_schedule]}
           sample_schedule);
    [ reflexivity | reflexivity | reflexivity
    | apply (bool_decide_unpack _); vm_compute; exact I
    | reflexivity ].
Defined.

(** ** Methods of the resource *)

(** X12: [BackupSchedule.delete] makes one request, a DELETE on the
    schedule URL of the resource's server, without reading first and
    without printing; it ends normally exactly when the client accepts the
    DELETE, and with the client's error otherwise. *)
Theorem resource_delete_only_deletes (cs : Client) (self : BackupSchedule)
    (w : world) :
  let u := schedule_url (server self) in
  http_log (snd (BackupScheduleResource.delete cs self w))
    = (http_log w ++ [DELETE u])%list
  ∧ stdout (snd (BackupScheduleResource.delete cs self w)) = stdout w
  ∧ (fst (BackupScheduleResource.delete cs self w) = inr tt
     ↔ client_delete cs u = true)
  ∧ (client_delete cs u = false →
     fst (BackupScheduleResource.delete cs self w) = inl (HTTPError (DELETE u))).
Proof.
  simpl. unfold BackupScheduleResource.delete. rewrite manager_delete_run.
  simpl. destruct (client_delete cs _); repeat split; done.
Qed.

Lemma resource_delete_only_deletes_witness :
  let cs := {| find_resource := fun _ => Some sample_server;
               client_get := fun _ => None;
               client_post := fun _ _ => true;
               client_delete := fun _ => false |} in
  fst (BackupScheduleResource.delete cs
         {| _info := sample_schedule; server := sample_server |} world0)
  = inl (HTTPError (DELETE "/servers/1234/backup_schedule")).
Proof.
  intros cs.
  destruct (resource_delete_only_deletes cs
              {| _info := sample_schedule; server := sample_server |} world0)
    as (_ & _ & _ & Hfail).
  apply Hfail. reflexivity.
Defined.

(** ** The posted document as a function of the command line *)

Lemma last_of_acc_Some {A : Type} (pick : flag → option A)
    (flags : list flag) (acc : option A) :
  is_Some acc → is_Some (last_of pick flags acc).
Proof.
  revert acc. induction flags as [|f flags IH]; intros acc Hacc; [done|].
  simpl. apply IH. by destruct (pick f).
Qed.

Lemma parsed_weekly (ref : string) (flags : list flag) (args : Args) :
  parse_args ref flags = inr args →
  backup_of_args args !! "weekly" = VStr <$> args_weekly args
  ∧ backup_of_args args !! "daily" = VStr <$> args_daily args.
Proof.
  intros Hparse.
  destruct (parse_args_vocab _ _ _ Hparse) as [Hvw Hvd].
  destruct (backup_of_args_lookup args) as (_ & _ & Hd & Hw).
  rewrite Hd, Hw. split.
  - destruct (args_weekly args) as [w|]; [|done].
    destruct (upper_day w (Hvw w eq_refl)) as [Hup ->]. simpl. by rewrite Hup.
  - destruct (args_daily args) as [d|]; [|done].
    destruct (upper_hour d (Hvd d eq_refl)) as [Hup ->]. simpl. by rewrite Hup.
Qed.

(** X14: the document the command posts is fixed by the command line
    alone.  Each field holds what the last flag aimed at it gave
    ([--enable] True, [--disable] False, the day, the window, the rotation
    text) and, when no flag was aimed at it, the default of [update]:
    [True], ['disabled'], ['disabled'], [0]. *)
Theorem posted_document_follows_flags (cs : Client) (ref : string)
    (flags : list flag) (u : string) (p : body) (sent : doc) :
  POST u p ∈ http_log (snd (run (backup_schedule_command cs ref flags))) →
  p !! "backupSchedule" = Some sent →
  sent !! "enabled" =
    Some (from_option VBool (VBool true) (last_of pick_enabled flags None))
  ∧ sent !! "weekly" =
    Some (from_option VStr (VStr "disabled") (last_of pick_weekly flags None))
  ∧ sent !! "daily" =
    Some (from_option VStr (VStr "disabled") (last_of pick_daily flags None))
  ∧ sent !! "rotation" =
    Some (from_option VStr (VInt 0) (last_of pick_rotation flags None))
  ∧ dom sent = update_params.
Proof.
  intros (args & Hparse & ->)%command_posts Hsent.
  rewrite lookup_singleton_eq in Hsent. injection Hsent as <-.
  destruct (take_flags_last _ _ _ Hparse) as (_ & He & Hw & Hd & Hr).
  simpl in He, Hw, Hd, Hr. rewrite <- He, <- Hw, <- Hd, <- Hr.
  destruct (update_document_lookup (backup_of_args args))
    as (-> & -> & -> & ->).
  destruct (backup_of_args_lookup args) as (Hbe & Hbr & _).
  destruct (parsed_weekly _ _ _ Hparse) as [Hbw Hbd].
  unfold bind_param. rewrite Hbe, Hbr, Hbw, Hbd.
  repeat split; try apply update_document_dom.
  - by destruct (args_enabled args).
  - by destruct (args_weekly args).
  - by destruct (args_daily args).
  - by destruct (args_rotation args).
Qed.

Lemma posted_document_follows_flags_witness :
  let sent : doc :=
    <["enabled" := VBool false]> (<["weekly" := VStr "disabled"]>
      (<["daily" := VStr "H_0200_0400"]> (<["rotation" := VStr "5"]> ∅))) in
  sent !! "enabled" = Some (VBool false)
  ∧ sent !! "weekly" = Some (VStr "disabled")
  ∧ sent !! "daily" = Some (VStr "H_0200_0400")
  ∧ sent !! "rotation" = Some (VStr "5")
  ∧ dom sent = update_params.
Proof.
  intros sent.
  apply (posted_document_follows_flags sample_client "web1"
           [Enable; Rotation "5"; Daily "H_0200_0400"; Disable]
           "/servers/1234/backup_schedule" {["backupSchedule" := sent]} sent).
  - vm_compute. apply list_elem_of_further, list_elem_of_here.
  - vm_compute. reflexivity.
Defined.

(** X15: through the parser, the command shows the schedule exactly when
    the command line has no flag at all: any accepted flag, [--disable] and
    an empty [--rotation] text included, enters an override. *)
Theorem show_iff_no_flags (ref : string) (flags : list flag) (args : Args) :
  parse_args ref flags = inr args →
  (backup_of_args args = ∅ ↔ flags = []).
Proof.
  intros Hparse. split.
  - intros Hempty. destruct flags as [|f flags]; [done|]. exfalso.
    destruct (take_flags_last _ _ _ Hparse) as (_ & He & Hw & Hd & Hr).
    destruct (backup_of_args_lookup args) as (Hbe & Hbr & _).
    destruct (parsed_weekly _ _ _ Hparse) as [Hbw Hbd].
    rewrite Hempty, lookup_empty in Hbe, Hbr, Hbw, Hbd.
    simpl in He, Hw, Hd, Hr.
    destruct f as [| |w|d|r]; simpl in *.
    + destruct (last_of_acc_Some pick_enabled flags (Some true)) as [x Hx];
        [by eexists|]. by rewrite He, Hx in Hbe.
    + destruct (last_of_acc_Some pick_enabled flags (Some false)) as [x Hx];
        [by eexists|]. by rewrite He, Hx in Hbe.
    + destruct (last_of_acc_Some pick_weekly flags (Some w)) as [x Hx];
        [by eexists|]. by rewrite Hw, Hx in Hbw.
    + destruct (last_of_acc_Some pick_daily flags (Some d)) as [x Hx];
        [by eexists|]. by rewrite Hd, Hx in Hbd.
    + destruct (last_of_acc_Some pick_rotation flags (Some r)) as [x Hx];
        [by eexists|]. by rewrite Hr, Hx in Hbr.
  - intros ->. injection Hparse as <-. reflexivity.
Qed.

Lemma show_iff_no_flags_witness :
  backup_of_args {| args_server := "web1"; args_enabled := None;
                    args_weekly := None; args_daily := None;
                    args_rotation := Some EmptyString |} = ∅
  ↔ [Rotation EmptyString] = [].
Proof.
  apply (show_iff_no_flags "web1" [Rotation EmptyString]). reflexivity.
Defined.

(** ** Upper-casing of the overrides *)

Lemma upper_ascii_no_lower (c : ascii) :
  ¬ (97 ≤ nat_of_ascii (upper_ascii c) ∧ nat_of_ascii (upper_ascii c) ≤ 122)%nat.
Proof.
  destruct c as [[] [] [] [] [] [] [] []]; vm_compute; intros [H1 H2];
    repeat (apply le_S_n in H1 || apply le_S_n in H2);
    solve [inversion H1 | inversion H2].
Qed.

Lemma upper_no_lower (s : string) : no_lower (upper s).
Proof.
  induction s as [|c s IH]; simpl; [done|].
  split; [apply upper_ascii_no_lower | exact IH].
Qed.

Lemma upper_length (s : string) : String.length (upper s) = String.length s.
Proof. induction s as [|c s IH]; simpl; [done | by rewrite IH]. Qed.

Lemma do_backup_schedule_posted (cs : Client) (args : Args)
    (u : string) (p : body) :
  POST u p ∈ http_log (snd (run (do_backup_schedule cs args))) →
  backup_of_args args ≠ ∅
  ∧ p = {["backupSchedule" := update_document (backup_of_args args)]}.
Proof.
  rewrite do_backup_schedule_run.
  destruct (find_resource cs (args_server args)) as [srv|]; simpl;
    [|intros Hin; by apply elem_of_nil in Hin].
  destruct (client_get cs (schedule_url srv)) as [b|]; simpl;
    [|intros [[=]|Hin%elem_of_nil]%elem_of_cons; done].
  destruct (b !! "backupSchedule") as [d|]; simpl;
    [|intros [[=]|Hin%elem_of_nil]%elem_of_cons; done].
  destruct (decide (backup_of_args args = ∅)); simpl;
    [intros [[=]|Hin%elem_of_nil]%elem_of_cons; done|].
  intros [[=]|[[= _ ->]|Hin%elem_of_nil]%elem_of_cons]%elem_of_cons; done.
Qed.

(** X16: whatever ASCII spelling [do_backup_schedule] is handed in
    [args.daily] or [args.weekly], a value that is not empty reaches the
    posted document upper-cased: same length, no lower-case letter left.
    A value that is missing or empty is posted as the default
    ['disabled']. *)
Theorem overrides_are_posted_upper_cased (cs : Client) (args : Args)
    (u : string) (p : body) (sent : doc) :
  POST u p ∈ http_log (snd (run (do_backup_schedule cs args))) →
  p !! "backupSchedule" = Some sent →
  (∀ d, args_daily args = Some d → d ≠ EmptyString → is_ascii d →
        sent !! "daily" = Some (VStr (upper d))
        ∧ no_lower (upper d)
        ∧ String.length (upper d) = String.length d)
  ∧ (∀ w, args_weekly args = Some w → w ≠ EmptyString → is_ascii w →
        sent !! "weekly" = Some (VStr (upper w))
        ∧ no_lower (upper w)
        ∧ String.length (upper w) = String.length w)
  ∧ (truthy (args_daily args) = false →
        sent !! "daily" = Some (VStr "disabled"))
  ∧ (truthy (args_weekly args) = false →
        sent !! "weekly" = Some (VStr "disabled")).
Proof.
  intros [_ ->]%do_backup_schedule_posted Hsent.
  rewrite lookup_singleton_eq in Hsent. injection Hsent as <-.
  destruct (update_document_lookup (backup_of_args args)) as (_ & -> & -> & _).
  destruct (backup_of_args_lookup args) as (_ & _ & Hd & Hw).
  unfold bind_param. rewrite Hd, Hw.
  split; [|split; [|split]].
  - intros d -> Hne _. destruct d as [|c d]; [done|]. simpl.
    split; [done|]. split; [apply (upper_no_lower (String c d))|].
    apply (upper_length (String c d)).
  - intros w -> Hne _. destruct w as [|c w]; [done|]. simpl.
    split; [done|]. split; [apply (upper_no_lower (String c w))|].
    apply (upper_length (String c w)).
  - by intros ->.
  - by intros ->.
Qed.

Lemma overrides_are_posted_upper_cased_witness :
  let sent : doc :=
    <["enabled" := VBool true]> (<["weekly" := VStr "disabled"]>
      (<["daily" := VStr "H_0200_0400"]> (<["rotation" := VInt 0]> ∅))) in
  sent !! "daily" = Some (VStr (upper "h_0200_0400"))
  ∧ no_lower (upper "h_0200_0400")
  ∧ String.length (upper "h_0200_0400") = String.length "h_0200_0400".
Proof.
  intros sent.
  destruct (overrides_are_posted_upper_cased sample_client
              {| args_server := "web1"; args_enabled := None;
                 args_weekly := None; args_daily := Some "h_0200_0400";
                 args_rotation := None |}
              "/servers/1234/backup_schedule"
              {["backupSchedule" := sent]} sent) as (Hd & _).
  - vm_compute. apply list_elem_of_further, list_elem_of_here.
  - vm_compute. reflexivity.
  - apply (Hd "h_0200_0400"); [reflexivity | discriminate |].
    vm_compute. repeat split; repeat constructor.
Defined.

(** ** Posting a complete document back *)

Lemma update_defaults_dom : dom update_defaults = update_params.
Proof.
  unfold update_defaults, update_params.
  rewrite !dom_insert_L, dom_empty_L. apply set_eq. intros f.
  rewrite !elem_of_union, !elem_of_singleton, elem_of_empty. tauto.
Qed.

(** X18: [BackupSchedule.update] posts a complete document unchanged.
    When the keywords are exactly [enabled], [weekly], [daily] and
    [rotation], as when the fetched document itself is unpacked into the
    call, the document sent is the dictionary given and no default takes
    part. *)
Theorem update_with_all_fields_posts_them (cs : Client)
    (self : BackupSchedule) (kwargs : doc) (w : world) :
  dom kwargs = update_params →
  http_log (snd (BackupScheduleResource.update cs self kwargs w)) =
  (http_log w ++
   [POST (schedule_url (server self)) {["backupSchedule" := kwargs]}])%list.
Proof.
  intros Hdom.
  rewrite resource_update_run by by rewrite Hdom.
  simpl. rewrite update_document_union by by rewrite Hdom.
  replace (kwargs ∪ update_defaults) with kwargs; [done|].
  apply map_eq. intros f. rewrite lookup_union.
  destruct (kwargs !! f) as [v|] eqn:Hf; [by rewrite union_Some_l|].
  apply not_elem_of_dom in Hf. rewrite Hdom, <- update_defaults_dom in Hf.
  apply not_elem_of_dom in Hf. by rewrite Hf.
Qed.

Lemma update_with_all_fields_posts_them_witness :
  http_log (snd (BackupScheduleResource.update sample_client
                   {| _info := sample_schedule; server := sample_server |}
                   sample_schedule world0)) =
  [POST "/servers/1234/backup_schedule"
     {["backupSchedule" := sample_schedule]}].
Proof.
  apply (update_with_all_fields_posts_them sample_client
           {| _info := sample_schedule; server := sample_server |}
           sample_schedule world0).
  apply (bool_decide_unpack _). vm_compute. exact I.
Defined.
